(** * Image_Processor.py: a shallow embedding and its specification

    The development follows the program top-down:
    - [Py]       the Python values and control the program relies on
                 (exceptions, [str] methods, slicing);
    - [Float64]  IEEE 754 binary64 arithmetic ([float]) and the two
                 conversions the program uses ([int(x)], ["{0:.0f}"]);
    - the file system, PIL images and the [Image_Object] wrapper;
    - the three image actions;
    - [Log_File] and [Image_Batch];
    - the command line of [run].

    Library code the program calls but does not contain (os.path, PIL's
    codecs, the XML pretty printer) is a [Platform] record the model is
    parameterised by.  *)

From Stdlib Require Import ZArith String Ascii List Bool Lia.
From Stdlib Require Import Floats.SpecFloat.
From stdpp Require Import gmap strings list pretty.

Open Scope Z_scope.

(* ================================================================== *)
(** ** Python values and control *)

Module Py.

(** Exceptions the program can raise or let through. *)
Inductive exn :=
| ZeroDivisionError
| OSError
| IOError
| AssertionError
| UnboundLocalError
| ValueError
| OverflowError
| AttributeError.

Inductive result (A : Type) :=
| Ok (a : A)
| Raise (e : exn).
Arguments Ok {A} a.
Arguments Raise {A} e.

(** A computation over a mutable state [S] that may raise.  The state
    survives an exception: what was mutated before stays mutated. *)
Definition M (S A : Type) : Type := S -> result A * S.

Definition ret {S A} (a : A) : M S A := fun s => (Ok a, s).
Definition raise {S A} (e : exn) : M S A := fun s => (Raise e, s).
Definition bind {S A B} (c : M S A) (k : A -> M S B) : M S B :=
  fun s => match c s with
           | (Ok a, s') => k a s'
           | (Raise e, s') => (Raise e, s')
           end.
Definition get {S} : M S S := fun s => (Ok s, s).
Definition modify {S} (f : S -> S) : M S unit := fun s => (Ok tt, f s).
Definition of_result {S A} (r : result A) : M S A := fun s => (r, s).

(** [for x in l: body(x)] *)
Fixpoint for_each {S A} (l : list A) (body : A -> M S unit) : M S unit :=
  match l with
  | [] => ret tt
  | x :: rest => bind (body x) (fun _ => for_each rest body)
  end.

(** A [for] loop that updates local variables [acc]. *)
Fixpoint fold_m {S A B} (l : list A) (acc : B) (body : B -> A -> M S B)
  : M S B :=
  match l with
  | [] => ret acc
  | x :: rest => bind (body acc x) (fun acc' => fold_m rest acc' body)
  end.

(** [if c: body] *)
Definition when {S} (c : bool) (body : M S unit) : M S unit :=
  if c then body else ret tt.

(** *** [str] methods *)

Definition lower_char (c : ascii) : ascii :=
  let n := nat_of_ascii c in
  if (65 <=? n)%nat && (n <=? 90)%nat then ascii_of_nat (n + 32) else c.

Fixpoint lower (s : string) : string :=
  match s with
  | EmptyString => EmptyString
  | String c rest => String (lower_char c) (lower rest)
  end.

Definition startswith (s p : string) : bool := String.prefix p s.

Definition endswith (s suffix : string) : bool :=
  String.prefix (String.rev suffix) (String.rev s).

(** Slice bounds as Python resolves them: a negative index counts from
    the end, and everything is clamped to [0 .. len]. *)
Definition clamp_index (len i : Z) : Z :=
  if i <? 0 then Z.max (len + i) 0 else Z.min i len.

(** [s[i:j]] *)
Definition slice (s : string) (i j : Z) : string :=
  let len := Z.of_nat (String.length s) in
  let a := clamp_index len i in
  let b := clamp_index len j in
  substring (Z.to_nat a) (Z.to_nat (b - a)) s.

(** [s.split(sep)] for a one-character separator: never the empty list. *)
Fixpoint split (sep : ascii) (s : string) : list string :=
  match s with
  | EmptyString => [EmptyString]
  | String c rest =>
      if Ascii.eqb c sep then EmptyString :: split sep rest
      else match split sep rest with
           | h :: t => String c h :: t
           | [] => [String c EmptyString]
           end
  end.

(** [s.replace(c, '')] for a one-character [c]. *)
Fixpoint remove_char (c : ascii) (s : string) : string :=
  match s with
  | EmptyString => EmptyString
  | String d rest =>
      if Ascii.eqb d c then remove_char c rest else String d (remove_char c rest)
  end.

Fixpoint mem_char (c : ascii) (chars : string) : bool :=
  match chars with
  | EmptyString => false
  | String d rest => Ascii.eqb c d || mem_char c rest
  end.

(** [s.lstrip(chars)]: drops leading characters that occur in [chars]. *)
Fixpoint lstrip (s chars : string) : string :=
  match s with
  | EmptyString => EmptyString
  | String c rest => if mem_char c chars then lstrip rest chars else s
  end.

(** [x in l] for a list of strings. *)
Definition str_in (x : string) (l : list string) : bool :=
  existsb (String.eqb x) l.

(** [str(n)] and ["{0}".format(n)] for an integer. *)
Definition str_int (n : Z) : string := pretty n.

(** [str(b)] for a bool. *)
Definition str_bool (b : bool) : string := if b then "True" else "False".

(** Truth value of a list: the empty list is false. *)
Definition truthy {A} (l : list A) : bool :=
  match l with [] => false | _ :: _ => true end.

End Py.

Import Py.

Declare Scope py_scope.
Delimit Scope py_scope with py.
Notation "x <~ c ;; k" := (bind c (fun x => k))
  (at level 100, c at level 99, right associativity) : py_scope.
Notation "c ;;; k" := (bind c (fun _ => k))
  (at level 100, right associativity) : py_scope.
Open Scope py_scope.

(* ================================================================== *)
(** ** binary64 floats *)

Module Float64.

Definition prec : Z := 53.
Definition emax : Z := 1024.

Definition float := spec_float.

(** [float(n)] for an integer [n] (round to nearest, ties to even). *)
Definition of_int (n : Z) : float := binary_normalize prec emax n 0 false.

Definition add : float -> float -> float := SFadd prec emax.
Definition mul : float -> float -> float := SFmul prec emax.

Definition is_zero (x : float) : bool :=
  match x with S754_zero _ => true | _ => false end.

(** [x / y]: Python raises on a zero divisor instead of returning an
    infinity. *)
Definition div (x y : float) : result float :=
  if is_zero y then Raise ZeroDivisionError else Ok (SFdiv prec emax x y).

(** [int(x)]: truncation toward zero. *)
Definition to_int (x : float) : result Z :=
  match x with
  | S754_zero _ => Ok 0
  | S754_finite s m e =>
      let v := if 0 <=? e then Z.pos m * 2 ^ e else Z.pos m / 2 ^ (- e) in
      Ok (if s then - v else v)
  | S754_infinity _ => Raise OverflowError
  | S754_nan => Raise ValueError
  end.

(** The integer nearest to [m * 2^e], ties to the even one. *)
Definition round_half_even (m : positive) (e : Z) : Z :=
  if 0 <=? e then Z.pos m * 2 ^ e
  else
    let d := 2 ^ (- e) in
    let q := Z.pos m / d in
    let r := Z.pos m mod d in
    match 2 * r ?= d with
    | Lt => q
    | Gt => q + 1
    | Eq => if Z.even q then q else q + 1
    end.

(** ["{0:.0f}".format(x)]: the exact value of [x] correctly rounded to
    no decimals. *)
Definition format_0f (x : float) : string :=
  match x with
  | S754_zero s => if s then "-0" else "0"
  | S754_finite s m e =>
      ((if s then "-" else "") ++ str_int (round_half_even m e))%string
  | S754_infinity s => if s then "-inf" else "inf"
  | S754_nan => "nan"
  end.

(** Truncation toward minus infinity of a non-negative float, used only to
    state what flooring would give. *)
Definition floor_nonneg (x : float) : Z :=
  match x with
  | S754_finite false m e =>
      if 0 <=? e then Z.pos m * 2 ^ e else Z.pos m / 2 ^ (- e)
  | _ => 0
  end.

End Float64.

Import Float64.

(* ================================================================== *)
(** ** Images and the file system *)

(** A decoded PIL image: [image.mode], [image.size] and the bands
    [image.split()] returns, each band being the sequence [getdata()]
    yields. *)
Record Image := {
  mode : string;
  size : Z * Z;
  bands : list (list Z)
}.

(** A path names a regular file (its bytes, as a Python 2 [str], and its
    [st_mode]) or a directory (the names [os.listdir] returns). *)
Inductive Node :=
| File (content : string) (st_mode : Z)
| Dir (entries : list string) (st_mode : Z).

(** The environment of the program: the file system and the readings
    [time.time()] is going to return. *)
Record World := {
  fs : gmap string Node;
  clock : list Z
}.

Definition set_fs (f : gmap string Node -> gmap string Node) (w : World) : World :=
  {| fs := f (fs w); clock := clock w |}.

(** An XML element as [xml.etree] builds it. *)
Unset Elimination Schemes.
Inductive Element :=
| Elem (tag : string) (attrs : list (string * string)) (children : list Element).
Set Elimination Schemes.

(** Library code the program calls. *)
Record Platform := {
  (** [os.path.basename] *)
  basename : string -> string;
  (** [os.path.join] *)
  join : string -> string -> string;
  (** [os.path.splitext] *)
  splitext : string -> string * string;
  (** [PIL.Image.open], from the bytes of the file *)
  Image_open : string -> result Image;
  (** [image.save(filename, optimize = ...)]: the bytes the call leaves in
      the file and the exception it ends with, if any *)
  Image_save : Image -> string -> bool -> string * option exn;
  (** [ET.tostring] followed by minidom's [toprettyxml] *)
  toprettyxml : Element -> result string
}.

(** [stat.S_IWRITE] *)
Definition S_IWRITE : Z := 128.

(** Mode a file gets when [open(name, 'w')] creates it. *)
Definition default_mode : Z := 420.

Definition os_path_exists (p : string) : M World bool :=
  w <~ get ;; ret (bool_decide (is_Some (fs w !! p))).

Definition os_path_isfile (w : World) (p : string) : bool :=
  match fs w !! p with Some (File _ _) => true | _ => false end.

(** [os.listdir]: [OSError] unless the path is a directory. *)
Definition os_listdir (p : string) : M World (list string) :=
  w <~ get ;;
  match fs w !! p with
  | Some (Dir entries _) => ret entries
  | _ => raise OSError
  end.

(** [os.stat]: the pair [(st_mode, st_size)]; [OSError] when the path does
    not exist.  The size of a directory is never used by the program. *)
Definition os_stat (p : string) : M World (Z * Z) :=
  w <~ get ;;
  match fs w !! p with
  | Some (File content m) => ret (m, Z.of_nat (String.length content))
  | Some (Dir _ m) => ret (m, 0)
  | None => raise OSError
  end.

(** [time.time()] *)
Definition time_time : M World Z :=
  fun w => match clock w with
           | [] => (Ok 0, w)
           | t :: later => (Ok t, {| fs := fs w; clock := later |})
           end.

(** Replaces the bytes of [p], keeping the mode of an existing file. *)
Definition write_bytes (p content : string) (w : World) : World :=
  let m := match fs w !! p with
           | Some (File _ m) => m
           | _ => default_mode
           end in
  set_fs (insert p (File content m)) w.

(** [f = open(p, 'w'); f.write(content); f.close()]: [IOError] on a
    directory or on a file without write permission. *)
Definition write_text_file (p content : string) : M World unit :=
  w <~ get ;;
  match fs w !! p with
  | Some (Dir _ _) => raise IOError
  | Some (File _ m) =>
      if Z.land m S_IWRITE =? 0 then raise IOError
      else modify (write_bytes p content)
  | None => modify (write_bytes p content)
  end.

(* ================================================================== *)
(** ** Image_Object *)

Record Image_Object := {
  filename : string;
  image : option Image;
  is_editable : bool;
  is_open : bool
}.

(** State of a method of an [Image_Object]: the object and the world. *)
Definition ObjState : Type := Image_Object * World.

Definition in_world {A} (c : M World A) : M ObjState A :=
  fun s => let (r, w') := c (snd s) in (r, (fst s, w')).

Definition self : M ObjState Image_Object := fun s => (Ok (fst s), s).

Definition set_self (f : Image_Object -> Image_Object) : M ObjState unit :=
  modify (fun s => (f (fst s), snd s)).

(** [Image_Object.__init__] *)
Definition Image_Object_init (name : string) : M World Image_Object :=
  found <~ os_path_exists name ;;
  if negb found then raise AssertionError
  else ret {| filename := name; image := None;
              is_editable := false; is_open := false |}.

Section WithPlatform.

Variable P : Platform.

(** [Image_Object._update_is_editable] *)
Definition _update_is_editable : M ObjState unit :=
  set_self (fun o => {| filename := filename o; image := image o;
                        is_editable := false; is_open := is_open o |}) ;;;
  o <~ self ;;
  st <~ in_world (os_stat (filename o)) ;;
  when (negb (Z.land (fst st) S_IWRITE =? 0))
    (set_self (fun o => {| filename := filename o; image := image o;
                           is_editable := true; is_open := is_open o |})).

(** [Image_Object.open] *)
Definition Image_Object_open : M ObjState unit :=
  o <~ self ;;
  w <~ in_world get ;;
  match fs w !! filename o with
  | Some (File content _) =>
      img <~ of_result (Image_open P content) ;;
      set_self (fun o => {| filename := filename o; image := Some img;
                            is_editable := is_editable o; is_open := true |})
  | _ => raise IOError
  end.

(** [Image_Object.save( filename = None, optimize = ... )] *)
Definition Image_Object_save (name : option string) (optimize : bool)
  : M ObjState unit :=
  _update_is_editable ;;;
  o <~ self ;;
  if is_editable o && is_open o then
    let name := match name with
                | Some n => if String.eqb n "" then filename o else n
                | None => filename o
                end in
    match image o with
    | Some img =>
        let (written, failure) := Image_save P img name optimize in
        in_world (modify (write_bytes name written)) ;;;
        match failure with
        | Some e => raise e
        | None => ret tt
        end
    | None => raise AttributeError
    end
  else ret tt.

(* ---------------------------------------------------------------- *)
(** *** The image actions *)

(** [Base_Image_Action.execute] *)
Definition Base_Image_Action_execute : M ObjState (bool * string) :=
  ret (false, "Failed, no test run on file"%string).

(** The figure of the compression report: [kb_raw] cut two characters
    from its end, with a point put in between. *)
Definition kb_str (kb_raw : string) : string :=
  (slice kb_raw 0 (-2) ++ "." ++
   slice kb_raw (-2) (Z.of_nat (String.length kb_raw)))%string.

(** The branches of [Action_Compress_PNG.execute] on the two sizes.
    [success] and [report_msg] keep their first values when no branch
    is taken. *)
Definition compression_verdict (original_file_size new_file_size : Z)
  : result (bool * string) :=
  let success := false in
  let report_msg := "Failed to complete the action for unknown reasons"%string in
  let file_size_diff := original_file_size - new_file_size in
  if 0 <? file_size_diff then
    match div (of_int file_size_diff) (of_int 1024) with
    | Ok kb =>
        match to_int (mul kb (of_int 100)) with
        | Ok cents =>
            let kb_raw := str_int cents in
            Ok (true, ("Compression saved " ++ kb_str kb_raw
                       ++ " kbs on disk")%string)
        | Raise e => Raise e
        end
    | Raise e => Raise e
    end
  else if file_size_diff =? 0 then
    Ok (false, "Compression did not save any memory on disk"%string)
  else
    Ok (success, report_msg).

(** [Action_Compress_PNG.execute] *)
Definition Action_Compress_PNG_execute : M ObjState (bool * string) :=
  o <~ self ;;
  if endswith (lower (filename o)) ".png" then
    file_stats <~ in_world (os_stat (filename o)) ;;
    let original_file_size := snd file_stats in
    when (negb (is_open o)) Image_Object_open ;;;
    Image_Object_save None true ;;;
    file_stats <~ in_world (os_stat (filename o)) ;;
    let new_file_size := snd file_stats in
    of_result (compression_verdict original_file_size new_file_size)
  else
    ret (false, (basename P (filename o) ++ " is not a PNG file")%string).

(** The bit test of the power-of-two check. *)
Definition is_pow2 (n : Z) : bool :=
  negb (n =? 0) && (Z.land n (n - 1) =? 0).

(** The verdict of [Action_Check_Power_Of_2.execute] on the two
    dimensions. *)
Definition power_of_2_verdict (w h : Z) : bool * string :=
  let w_pow := is_pow2 w in
  let h_pow := is_pow2 h in
  if w_pow && h_pow then
    (true, ("Width:" ++ str_int w ++ " and Height:" ++ str_int h
            ++ " are both a proper power of 2")%string)
  else
    (false, ("Either Width:" ++ str_int w ++ " or Height:" ++ str_int h
             ++ " is NOT a proper power of 2")%string).

(** [Action_Check_Power_Of_2.execute] *)
Definition Action_Check_Power_Of_2_execute : M ObjState (bool * string) :=
  o <~ self ;;
  when (negb (is_open o)) Image_Object_open ;;;
  o <~ self ;;
  match image o with
  | None => raise AttributeError
  | Some img =>
      let (w, h) := size img in
      ret (power_of_2_verdict w h)
  end.

(** The loop counting the pixels that are neither 0 nor 255. *)
Definition count_bad_pixels (data : list Z) : Z :=
  fold_left (fun bad pixel =>
               if (0 <? pixel) && (pixel <? 255) then bad + 1 else bad)
            data 0.

(** The percentage figure of the PBR report. *)
Definition perc_str (bad_pixels total : Z) : result string :=
  match div (of_int bad_pixels) (of_int total) with
  | Ok ratio =>
      let s := format_0f (mul ratio (of_int 100)) in
      Ok (if String.eqb s "0" then ("Less than " ++ s)%string else s)
  | Raise e => Raise e
  end.

(** The channels [Action_Verify_PBR_Values.execute] splits out: [red] is
    bound only when the mode is RGB or RGBA. *)
Definition split_red (img : Image) : result (option (list Z)) :=
  let red :=
    if String.eqb (mode img) "RGB" then
      match bands img with
      | [r; _; _] => Ok (Some r)
      | _ => Raise ValueError
      end
    else Ok None in
  match red with
  | Raise e => Raise e
  | Ok red =>
      if String.eqb (mode img) "RGBA" then
        match bands img with
        | [r; _; _; _] => Ok (Some r)
        | _ => Raise ValueError
        end
      else Ok red
  end.

(** The metal check on the red channel. *)
Definition metal_verdict (red : list Z) : result (bool * string) :=
  let success := true in
  let report_msg := "Passed all PBR validation tests"%string in
  let bad_pixels := count_bad_pixels red in
  let verdict :=
    if 0 <? bad_pixels then
      match perc_str bad_pixels (Z.of_nat (length red)) with
      | Ok p =>
          Ok (false,
              (p ++ "% of the pixels in the red channel are not valid METAL values")%string)
      | Raise e => Raise e
      end
    else Ok (success, report_msg) in
  match verdict with
  | Ok v => if bad_pixels =? 0 then Ok (true, snd v) else Ok v
  | Raise e => Raise e
  end.

(** [Action_Verify_PBR_Values.execute] *)
Definition Action_Verify_PBR_Values_execute : M ObjState (bool * string) :=
  let success := true in
  let report_msg := "Passed all PBR validation tests"%string in
  o <~ self ;;
  when (negb (is_open o)) Image_Object_open ;;;
  o <~ self ;;
  match image o with
  | None => raise AttributeError
  | Some img =>
      red <~ of_result (split_red img) ;;
      if endswith (lower (filename o)) "_mra.png" then
        match red with
        | None => raise UnboundLocalError
        | Some red => of_result (metal_verdict red)
        end
      else ret (success, report_msg)
  end.

End WithPlatform.

(** The interface of an image action: the class attributes and [execute].
    [subclasses] is [Base_Image_Action.__subclasses__()]: every class
    object once. *)
Class ImageAction (C : Type) := {
  action_name : C -> string;
  widget_title : C -> string;
  status_msg : C -> string;
  add_to_ui : C -> bool;
  can_execute : C -> bool;
  execute : C -> M ObjState (bool * string);
  subclasses : list C
}.

(** The three actions of the program. *)
Inductive Reference_Action :=
| Action_Compress_PNG
| Action_Check_Power_Of_2
| Action_Verify_PBR_Values.

#[global] Instance Reference_Action_eq_dec : EqDecision Reference_Action.
Proof. solve_decision. Defined.

#[global] Instance Reference_Action_countable : Countable Reference_Action :=
  inj_countable'
    (fun c => match c with
              | Action_Compress_PNG => 0%nat
              | Action_Check_Power_Of_2 => 1%nat
              | Action_Verify_PBR_Values => 2%nat
              end)
    (fun n => match n with
              | 0%nat => Action_Compress_PNG
              | 1%nat => Action_Check_Power_Of_2
              | _ => Action_Verify_PBR_Values
              end)
    (fun c => match c with
              | Action_Compress_PNG => eq_refl
              | Action_Check_Power_Of_2 => eq_refl
              | Action_Verify_PBR_Values => eq_refl
              end).

(** Class attributes as the class statements set them: only
    [Action_Compress_PNG] overrides [can_execute]. *)
Definition Reference_Actions (P : Platform) : ImageAction Reference_Action := {|
  action_name c := match c with
                   | Action_Compress_PNG => "compress_png"
                   | Action_Check_Power_Of_2 => "check_power_of_2"
                   | Action_Verify_PBR_Values => "verify_pbr_values"
                   end;
  widget_title c := match c with
                    | Action_Compress_PNG => "Compress PNGs"
                    | Action_Check_Power_Of_2 => "Check Power of 2"
                    | Action_Verify_PBR_Values => "Verify PBR Values"
                    end;
  status_msg c := match c with
                  | Action_Compress_PNG => "Compressing "
                  | Action_Check_Power_Of_2 => "Checking Power of 2 on"
                  | Action_Verify_PBR_Values => "Verifying PBR Values on"
                  end;
  add_to_ui _ := true;
  can_execute c := match c with
                   | Action_Compress_PNG => true
                   | _ => false
                   end;
  execute c := match c with
               | Action_Compress_PNG => Action_Compress_PNG_execute P
               | Action_Check_Power_Of_2 => Action_Check_Power_Of_2_execute P
               | Action_Verify_PBR_Values => Action_Verify_PBR_Values_execute P
               end;
  subclasses := [Action_Compress_PNG; Action_Check_Power_Of_2;
                 Action_Verify_PBR_Values]
|}.

(* ================================================================== *)
(** ** Log_File *)

Record Log_File := {
  log_filename : string;
  file_results : gmap string (list (string * bool * string));
  file_fails : gmap string (list (string * string));
  save_log : bool;
  start_time : Z;
  end_time : Z;
  completed : bool
}.

(** [Log_File.__init__] *)
Definition Log_File_init (name : string) : Log_File :=
  {| log_filename := name; file_results := ∅; file_fails := ∅;
     save_log := true; start_time := 0; end_time := 0; completed := false |}.

(** [Log_File.clear] *)
Definition Log_File_clear (l : Log_File) : Log_File :=
  {| log_filename := log_filename l; file_results := ∅; file_fails := ∅;
     save_log := save_log l; start_time := start_time l;
     end_time := end_time l; completed := completed l |}.

(** [Log_File.add_file_fail] *)
Definition add_file_fail (name action results : string) (l : Log_File) : Log_File :=
  let fails :=
    match file_fails l !! name with
    | Some entries => <[name := entries ++ [(action, results)]]> (file_fails l)
    | None => <[name := [(action, results)]]> (file_fails l)
    end in
  {| log_filename := log_filename l; file_results := file_results l;
     file_fails := fails; save_log := save_log l; start_time := start_time l;
     end_time := end_time l; completed := completed l |}.

(** [Log_File.add_file_result] *)
Definition add_file_result (name action : string) (success : bool)
    (results : string) (l : Log_File) : Log_File :=
  let res :=
    match file_results l !! name with
    | Some entries => <[name := entries ++ [(action, success, results)]]> (file_results l)
    | None => <[name := [(action, success, results)]]> (file_results l)
    end in
  {| log_filename := log_filename l; file_results := res;
     file_fails := file_fails l; save_log := save_log l;
     start_time := start_time l; end_time := end_time l;
     completed := completed l |}.

(** The tree [Log_File.save] builds.  The files come in the iteration order
    of the two dictionaries. *)
Definition failed_element (l : Log_File) : Element :=
  Elem "failed" []
    (map (fun '(name, entries) =>
            Elem "file" [("filename", name)]
              (map (fun '(action, report) =>
                      Elem "action" [("name", action); ("report", report)] [])
                   entries))
         (map_to_list (file_fails l))).

Definition complete_element (l : Log_File) : Element :=
  Elem "complete_results" []
    (map (fun '(name, entries) =>
            Elem "file" [("filename", name)]
              (map (fun '(action, passed, report) =>
                      Elem "action" [("name", action);
                                     ("passed", str_bool passed);
                                     ("report", report)] [])
                   entries))
         (map_to_list (file_results l))).

Definition root_element (l : Log_File) : Element :=
  Elem "root" [] [failed_element l; complete_element l].

(* ================================================================== *)
(** ** Image_Batch *)

(** What the batch needs of the frame: which of the two callbacks it has. *)
Record Frame := {
  has_update_status_value : bool;
  has_update_status_msg : bool
}.

(** The attributes of the batch that [start] and what it calls read.
    [save_log] and [log_filepath] live in [log]: [set_save_log] and
    [set_log_filepath] write them there as well. *)
Record Image_Batch := {
  headless : bool;
  frame : option Frame;
  dirs : list string;
  extensions : list string;
  actions : option (list string);
  log : Log_File;
  status_value : float;
  status_incr : float
}.

(** What one run lets the outside observe, oldest first.  [EvProgress] and
    [EvStatus] are the console lines of a headless run or the calls on the
    frame.  [EvExecute] records one call of an action's [execute] and how it
    ended, [EvLogSaved] that [Log_File.save] wrote the report file. *)
Inductive Event :=
| EvProgress (value : float)
| EvStatus (msg : string)
| EvExecute (action file : string) (outcome : result (bool * string))
| EvLogSaved (path : string).

Record BatchState := {
  batch : Image_Batch;
  world : World;
  trace : list Event
}.

Definition this : M BatchState Image_Batch := fun s => (Ok (batch s), s).

Definition set_this (f : Image_Batch -> Image_Batch) : M BatchState unit :=
  modify (fun s => {| batch := f (batch s); world := world s; trace := trace s |}).

Definition in_env {A} (c : M World A) : M BatchState A :=
  fun s => let (r, w') := c (world s) in
           (r, {| batch := batch s; world := w'; trace := trace s |}).

Definition emit (ev : Event) : M BatchState unit :=
  modify (fun s => {| batch := batch s; world := world s;
                      trace := trace s ++ [ev] |}).

Definition set_log (f : Log_File -> Log_File) : M BatchState unit :=
  set_this (fun b => {| headless := headless b; frame := frame b;
                        dirs := dirs b; extensions := extensions b;
                        actions := actions b; log := f (log b);
                        status_value := status_value b;
                        status_incr := status_incr b |}).

(** [Log_File.save]: builds the tree, renders it and writes the file. *)
Definition Log_File_save (P : Platform) (l : Log_File) : M BatchState unit :=
  if save_log l then
    xml_str <~ of_result (toprettyxml P (root_element l)) ;;
    in_env (write_text_file (log_filename l) xml_str) ;;;
    emit (EvLogSaved (log_filename l))
  else ret tt.

Section Engine.

Variable P : Platform.
Context {C : Type} {Ceq : EqDecision C} {Ccount : Countable C}
        {Act : ImageAction C}.

(** [Image_Batch.__init__] without [auto_start]; the log path is the one
    [set_log_filepath] settled on. *)
Definition Image_Batch_init (headless : bool) (frame : option Frame)
    (dirs : list string) (log_filepath : string) (extensions : list string)
    (actions : option (list string)) : Image_Batch :=
  {| headless := headless; frame := frame; dirs := dirs;
     extensions := extensions; actions := actions;
     log := Log_File_init log_filepath;
     status_value := of_int 0; status_incr := of_int 0 |}.

(** [Image_Batch.get_image_files] *)
Definition get_image_files (b : Image_Batch) (directory : string)
  : M World (list string) :=
  found <~ os_path_exists directory ;;
  if found then
    names <~ os_listdir directory ;;
    w <~ get ;;
    let all_files :=
      map (join P directory)
          (List.filter (fun f => os_path_isfile w (join P directory f)) names) in
    ret (List.filter (fun f => str_in (remove_char "." (snd (splitext P f)))
                                      (extensions b))
                     all_files)
  else ret [].

(** [Image_Batch.update_status_incr] *)
Definition update_status_incr : M BatchState unit :=
  b <~ this ;;
  file_count <~ fold_m (dirs b) 0
                  (fun file_count directory =>
                     files <~ in_env (get_image_files b directory) ;;
                     ret (file_count + Z.of_nat (length files))) ;;
  incr <~ of_result (div (of_int 100) (of_int file_count)) ;;
  set_this (fun b => {| headless := headless b; frame := frame b;
                        dirs := dirs b; extensions := extensions b;
                        actions := actions b; log := log b;
                        status_value := status_value b;
                        status_incr := incr |}).

(** [Image_Batch.update_status_value] *)
Definition update_status_value (value : option float) : M BatchState unit :=
  b <~ this ;;
  let value := match value with
               | None => add (status_value b) (status_incr b)
               | Some v => v
               end in
  set_this (fun b => {| headless := headless b; frame := frame b;
                        dirs := dirs b; extensions := extensions b;
                        actions := actions b; log := log b;
                        status_value := value;
                        status_incr := status_incr b |}) ;;;
  if headless b then emit (EvProgress value)
  else match frame b with
       | Some f => when (has_update_status_value f) (emit (EvProgress value))
       | None => ret tt
       end.

(** [Image_Batch.update_status_msg] *)
Definition update_status_msg (msg : string) : M BatchState unit :=
  b <~ this ;;
  if headless b then emit (EvStatus msg)
  else match frame b with
       | Some f => when (has_update_status_msg f) (emit (EvStatus msg))
       | None => ret tt
       end.

(** The test [if self.actions:]: [None] and the empty list are false. *)
Definition actions_given (b : Image_Batch) : bool :=
  match actions b with
  | Some ids => truthy ids
  | None => false
  end.

(** Body of the loop of [get_subclass_actions_to_perform]. *)
Definition consider_action (b : Image_Batch) (acc : list C) (sub_class : C)
  : list C :=
  if actions_given b then
    if str_in (action_name sub_class) (default [] (actions b))
    then acc ++ [sub_class] else acc
  else
    if can_execute sub_class then acc ++ [sub_class] else acc.

(** The loop of [get_subclass_actions_to_perform] over the subclasses. *)
Definition collect_actions (b : Image_Batch) (classes : list C) : list C :=
  fold_left (consider_action b) classes [].

(** [Image_Batch.get_subclass_actions_to_perform]: [list( set( actions ) )]
    keeps every class once, in the iteration order of the set. *)
Definition get_subclass_actions_to_perform (b : Image_Batch) : list C :=
  elements (list_to_set (collect_actions b subclasses) : gset C).

(** The test one subclass goes through in the selection loop. *)
Definition selected (b : Image_Batch) (c : C) : bool :=
  if actions_given b then str_in (action_name c) (default [] (actions b))
  else can_execute c.

(** One call [sub_class.execute( image_obj )] made by the batch. *)
Definition call_execute (sub_class : C) (image_obj : Image_Object)
  : M BatchState (bool * string * Image_Object) :=
  fun s =>
    let '(r, (image_obj', w')) := execute sub_class (image_obj, world s) in
    let s' := {| batch := batch s; world := w';
                 trace := trace s ++ [EvExecute (action_name sub_class)
                                        (filename image_obj) r] |} in
    match r with
    | Ok verdict => (Ok (verdict, image_obj'), s')
    | Raise e => (Raise e, s')
    end.

(** Body of the loop over the actions, for one file. *)
Definition perform_action (image_obj : Image_Object) (sub_class : C)
  : M BatchState Image_Object :=
  update_status_msg (status_msg sub_class ++ ": "
                     ++ basename P (filename image_obj))%string ;;;
  r <~ call_execute sub_class image_obj ;;
  let '(success, results, image_obj) := r in
  set_log (add_file_result (filename image_obj) (action_name sub_class)
             success results) ;;;
  when (negb success)
    (set_log (add_file_fail (filename image_obj) (action_name sub_class)
                results)) ;;;
  ret image_obj.

(** Body of the loop over the files of a directory. *)
Definition process_file (todo : list C) (image : string) : M BatchState unit :=
  update_status_value None ;;;
  image_obj <~ in_env (Image_Object_init image) ;;
  fold_m todo image_obj perform_action ;;;
  ret tt.

(** Body of the loop over the directories. *)
Definition process_directory (todo : list C) (directory : string)
  : M BatchState unit :=
  b <~ this ;;
  image_files <~ in_env (get_image_files b directory) ;;
  for_each image_files (process_file todo).

(** [Image_Batch.start] *)
Definition start : M BatchState unit :=
  set_log Log_File_clear ;;;
  update_status_incr ;;;
  update_status_value (Some (of_int 0)) ;;;
  t <~ in_env time_time ;;
  set_log (fun l => {| log_filename := log_filename l;
                       file_results := file_results l;
                       file_fails := file_fails l; save_log := save_log l;
                       start_time := t; end_time := end_time l;
                       completed := completed l |}) ;;;
  b <~ this ;;
  let todo := get_subclass_actions_to_perform b in
  for_each (dirs b) (process_directory todo) ;;;
  t <~ in_env time_time ;;
  set_log (fun l => {| log_filename := log_filename l;
                       file_results := file_results l;
                       file_fails := file_fails l; save_log := save_log l;
                       start_time := start_time l; end_time := t;
                       completed := true |}) ;;;
  b <~ this ;;
  Log_File_save P (log b) ;;;
  update_status_value (Some (of_int 100)) ;;;
  update_status_msg "Batch Completed".

End Engine.

(* ================================================================== *)
(** ** The command line *)

Definition ARG_HEADLESS : string := "-headless".
Definition ARG_DIRS : string := "-dirs=".
Definition ARG_LOG_FILEPATH : string := "-logfile=".
Definition ARG_EXTENTIONS : string := "-exts=".
Definition ARG_ACTIONS : string := "-actions=".

(** The local variables of [run]. *)
Record Run_Arguments := {
  arg_headless : bool;
  arg_dirs : list string;
  arg_extensions : list string;
  arg_actions : option (list string);
  arg_log_filepath : string
}.

(** [arg[ len( prefix ):len( arg ) ]] *)
Definition after_prefix (prefix arg : string) : string :=
  slice arg (Z.of_nat (String.length prefix)) (Z.of_nat (String.length arg)).

(** The argument loop of [run]. *)
Definition parse_arguments (arguments : list string) : Run_Arguments :=
  fold_left
    (fun a arg =>
       let a := if startswith arg ARG_DIRS then
                  {| arg_headless := arg_headless a;
                     arg_dirs := split "," (after_prefix ARG_DIRS arg);
                     arg_extensions := arg_extensions a;
                     arg_actions := arg_actions a;
                     arg_log_filepath := arg_log_filepath a |}
                else a in
       let a := if startswith arg ARG_EXTENTIONS then
                  {| arg_headless := arg_headless a;
                     arg_dirs := arg_dirs a;
                     arg_extensions := split "," (after_prefix ARG_EXTENTIONS arg);
                     arg_actions := arg_actions a;
                     arg_log_filepath := arg_log_filepath a |}
                else a in
       let a := if startswith arg ARG_ACTIONS then
                  {| arg_headless := arg_headless a;
                     arg_dirs := arg_dirs a;
                     arg_extensions := arg_extensions a;
                     arg_actions := Some (split "," (after_prefix ARG_ACTIONS arg));
                     arg_log_filepath := arg_log_filepath a |}
                else a in
       if startswith arg ARG_LOG_FILEPATH then
         {| arg_headless := arg_headless a;
            arg_dirs := arg_dirs a;
            arg_extensions := arg_extensions a;
            arg_actions := arg_actions a;
            arg_log_filepath := lstrip arg ARG_LOG_FILEPATH |}
       else a)
    arguments
    {| arg_headless := str_in ARG_HEADLESS arguments;
       arg_dirs := []; arg_extensions := []; arg_actions := None;
       arg_log_filepath := "" |}.

(** The batch a headless [run] builds.  [log_filepath] stands for the path
    [set_log_filepath] derives from the [-logfile=] argument. *)
Definition headless_batch (log_filepath : string) (arguments : list string)
  : Image_Batch :=
  let a := parse_arguments arguments in
  {| headless := arg_headless a; frame := None; dirs := arg_dirs a;
     extensions := arg_extensions a; actions := arg_actions a;
     log := Log_File_init log_filepath;
     status_value := of_int 0; status_incr := of_int 0 |}.

(* ================================================================== *)
(** ** A concrete platform

    [posixpath] for the path functions; the codec is a stand-in that decodes
    every file to [decoded] and encodes every image to [encoded]. *)

Module Posix.

(** Characters after the last ['/']. *)
Fixpoint basename (p : string) : string :=
  match p with
  | EmptyString => EmptyString
  | String c rest =>
      if existsb (Ascii.eqb "/") (list_ascii_of_string rest) then basename rest
      else if Ascii.eqb c "/" then rest else p
  end.

Definition join (a b : string) : string :=
  if startswith b "/" then b
  else if String.eqb a "" || endswith a "/" then (a ++ b)%string
  else (a ++ "/" ++ b)%string.

(** Splits the extension off the last component; leading dots of the
    component do not start an extension. *)
Fixpoint split_last_dot (s : string) : option (string * string) :=
  match s with
  | EmptyString => None
  | String c rest =>
      match split_last_dot rest with
      | Some (root, ext) => Some (String c root, ext)
      | None => if Ascii.eqb c "." then Some (EmptyString, s) else None
      end
  end.

Definition splitext (p : string) : string * string :=
  let name := basename p in
  let dir := slice p 0 (Z.of_nat (String.length p - String.length name)) in
  match split_last_dot name with
  | Some (root, ext) =>
      if String.eqb (remove_char "." root) "" then (p, EmptyString)
      else ((dir ++ root)%string, ext)
  | None => (p, EmptyString)
  end.

Definition platform (decoded : Image) (encoded : string) : Platform :=
  Build_Platform basename join splitext
    (fun _ => Ok decoded)
    (fun _ _ _ => (encoded, None))
    (fun _ => Ok "<root/>"%string).

End Posix.

(** The object once [open] has loaded [img]. *)
Definition opened (o : Image_Object) (img : Image) : Image_Object :=
  {| filename := filename o; image := Some img;
     is_editable := is_editable o; is_open := true |}.

(** [img] is the image the actions work on: the one already loaded, or
    the one [open] decodes from the file. *)
Definition loaded (P : Platform) (o : Image_Object) (w : World) (img : Image)
  : Prop :=
  if is_open o then image o = Some img
  else exists content m,
         fs w !! filename o = Some (File content m)
         /\ Image_open P content = Ok img.

(** The last two decimal digits of [n]. *)
Definition two_digits (n : Z) : string :=
  String (pretty_N_char (Z.to_N ((n / 10) mod 10)))
    (String (pretty_N_char (Z.to_N (n mod 10))) EmptyString).

(** The object after [_update_is_editable] found [editable]. *)
Definition with_editable (editable : bool) (o : Image_Object) : Image_Object :=
  {| filename := filename o; image := image o;
     is_editable := editable; is_open := is_open o |}.

(** Whether [st_mode] has the write bit [_update_is_editable] tests. *)
Definition writable (st_mode : Z) : bool := negb (Z.land st_mode S_IWRITE =? 0).

(** A message with its digits taken out: what it says apart from the
    numbers it reports. *)
Definition is_digit (c : ascii) : bool :=
  let n := nat_of_ascii c in (48 <=? n)%nat && (n <=? 57)%nat.

Fixpoint wording (s : string) : string :=
  match s with
  | EmptyString => EmptyString
  | String c rest => if is_digit c then wording rest else String c (wording rest)
  end.

(** A failure report tells which dimension failed when what it says, apart
    from the two numbers, settles which of the two tests passed. *)
Definition tells_failed_dimension (report : Z -> Z -> string) : Prop :=
  exists cited : string -> bool * bool,
    forall w h, is_pow2 w && is_pow2 h = false ->
                cited (wording (report w h)) = (is_pow2 w, is_pow2 h).

(** The figure of the report, as the two lines on [perc_str] compute it. *)
Definition metal_figure (bad_pixels total : Z) : string :=
  let s := format_0f (mul (SFdiv prec emax (of_int bad_pixels) (of_int total))
                          (of_int 100)) in
  if String.eqb s "0" then ("Less than " ++ s)%string else s.

(** The entries of a result list that [start] also files as failures. *)
Definition failing_entries (entries : list (string * bool * string))
  : list (string * string) :=
  map (fun '(action, _, report) => (action, report))
      (List.filter (fun '(_, passed, _) => negb passed) entries).

(** The invariant of the report: for every file, [file_fails] holds exactly
    the failing entries of [file_results], in the same order, and has no
    key for a file without a failing entry. *)
Definition log_inv (l : Log_File) : Prop :=
  forall name,
    file_fails l !! name
    = match failing_entries (default [] (file_results l !! name)) with
      | [] => None
      | entries => Some entries
      end.

(** A computation of the batch keeps the invariant of the report,
    however it ends. *)
Definition keeps_log_inv {A} (c : M BatchState A) : Prop :=
  forall s, log_inv (log (batch s)) -> log_inv (log (batch (snd (c s)))).

(** The invariant, entry by entry: an entry is among the failures of a file
    exactly when the same action and message are among its results with
    [passed] false. *)
Definition fails_match_results (l : Log_File) : Prop :=
  forall name action report,
    (exists entries, file_fails l !! name = Some entries
                     /\ (action, report) ∈ entries)
    <-> (exists entries, file_results l !! name = Some entries
                         /\ (action, false, report) ∈ entries).

(** Events that record an [execute] call ending in an exception, and the
    write of the report file. *)
Definition is_raised_execute (ev : Event) : bool :=
  match ev with
  | EvExecute _ _ (Raise _) => true
  | _ => false
  end.

Definition is_log_saved (ev : Event) : bool :=
  match ev with
  | EvLogSaved _ => true
  | _ => false
  end.

(** A stretch of the trace without a raising [execute] call. *)
Definition no_raise (t : list Event) : Prop :=
  Forall (fun ev => is_raised_execute ev = false) t.

(** A stretch of the trace without a raising [execute] call and without a
    write of the report. *)
Definition quiet (t : list Event) : Prop :=
  Forall (fun ev => is_raised_execute ev = false /\ is_log_saved ev = false) t.

(** The trace of a run that ended with the exception [e]: either nothing
    worth noting, or a quiet stretch closed by the [execute] call that
    raised [e]. *)
Definition aborted (t : list Event) (e : exn) : Prop :=
  quiet t
  \/ exists t0 action file,
       t = t0 ++ [EvExecute action file (Raise e)] /\ quiet t0.

(** What a part of [start] before the report is saved adds to the trace. *)
Definition before_save {A} (c : M BatchState A) : Prop :=
  forall s, exists t,
    trace (snd (c s)) = trace s ++ t
    /\ match fst (c s) with
       | Ok _ => quiet t
       | Raise e => aborted t e
       end.

(** What a part of [start] that reaches the end adds to the trace. *)
Definition to_the_end {A} (c : M BatchState A) : Prop :=
  forall s, exists t,
    trace (snd (c s)) = trace s ++ t
    /\ match fst (c s) with
       | Ok _ => no_raise t
       | Raise e => aborted t e
       end.

(** The two statements of [start] that file the verdict of one action. *)
Definition record_verdict (name action : string) (success : bool)
    (results : string) (l : Log_File) : Log_File :=
  let l := add_file_result name action success results l in
  if negb success then add_file_fail name action results l else l.

(** The state [start] leaves when it raises before its first event. *)
Definition cleared (s : BatchState) : BatchState :=
  {| batch := {| headless := headless (batch s); frame := frame (batch s);
                 dirs := dirs (batch s); extensions := extensions (batch s);
                 actions := actions (batch s);
                 log := Log_File_clear (log (batch s));
                 status_value := status_value (batch s);
                 status_incr := status_incr (batch s) |};
     world := world s; trace := trace s |}.

(** The same classes with other values of [can_execute]. *)
Definition with_can_execute {C} (flags : C -> bool) (Act : ImageAction C)
  : ImageAction C :=
  {| action_name := @action_name C Act; widget_title := @widget_title C Act;
     status_msg := @status_msg C Act; add_to_ui := @add_to_ui C Act;
     can_execute := flags; execute := @execute C Act;
     subclasses := @subclasses C Act |}.

(** The batch with another value of [actions]. *)
Definition with_actions (ids : option (list string)) (b : Image_Batch)
  : Image_Batch :=
  {| headless := headless b; frame := frame b; dirs := dirs b;
     extensions := extensions b; actions := ids; log := log b;
     status_value := status_value b; status_incr := status_incr b |}.

(* ================================================================== *)
(** ** Fixtures: a small image, a platform and a directory *)

Module Sample.

(** A 300 x 128 image (pixel data cut short) with one red pixel that is
    neither 0 nor 255. *)
Definition picture : Image :=
  {| mode := "RGB"; size := (300, 128);
     bands := [[0; 255; 128]; [0; 0; 0]; [0; 0; 0]] |}.

(** Decodes every file to [picture], encodes every image to 8 bytes. *)
Definition platform : Platform := Posix.platform picture "12345678".

Definition actions : ImageAction Reference_Action := Reference_Actions platform.

(** The same, with an encoder that leaves 64 bytes. *)
Definition bloating_platform : Platform :=
  Posix.platform picture
    "0123456789012345678901234567890123456789012345678901234567890123".

Definition sixty_bytes : string :=
  "012345678901234567890123456789012345678901234567890123456789".

(** A directory with one PNG of 60 bytes and one text file. *)
Definition disk : World :=
  {| fs := {[ "/art" := Dir ["stone_mra.png"; "notes.txt"] 493;
              "/art/stone_mra.png" := File sixty_bytes 420;
              "/art/notes.txt" := File "todo" 420 ]};
     clock := [10; 20] |}.

Definition batch_of (dirs : list string) (ids : option (list string))
  : Image_Batch :=
  Image_Batch_init true None dirs "/report.xml" ["png"] ids.

(** The object [Image_Object( name )] builds. *)
Definition fresh (name : string) : Image_Object :=
  {| filename := name; image := None; is_editable := false;
     is_open := false |}.

(** An object that already holds [img]. *)
Definition showing (name : string) (img : Image) : Image_Object :=
  {| filename := name; image := Some img; is_editable := false;
     is_open := true |}.

(** Three red pixels, two of them neither 0 nor 255. *)
Definition two_of_three : Image :=
  {| mode := "RGB"; size := (3, 1);
     bands := [[0; 128; 64]; [0; 0; 0]; [0; 0; 0]] |}.

(** A greyscale image: no red channel. *)
Definition grey : Image :=
  {| mode := "L"; size := (2, 2); bands := [[0; 0; 0; 0]] |}.

Definition grey_platform : Platform := Posix.platform grey "12345678".

(** 400 red pixels, three of them neither 0 nor 255. *)
Definition three_of_400 : Image :=
  {| mode := "RGBA"; size := (20, 20);
     bands := [[1; 2; 3] ++ repeat 255 397; repeat 0 400; repeat 0 400;
               repeat 255 400] |}.

(** An object that already holds a [w] x [h] image. *)
Definition holding (name : string) (w h : Z) : Image_Object :=
  {| filename := name;
     image := Some {| mode := "RGB"; size := (w, h);
                      bands := [[0]; [0]; [0]] |};
     is_editable := false; is_open := true |}.

Definition state_of (dirs : list string) (ids : option (list string))
  : BatchState :=
  {| batch := batch_of dirs ids; world := disk; trace := [] |}.

End Sample.

(** Two action classes that were given the same [action_name]. *)
Inductive Twin_Action := Twin_A | Twin_B.

#[global] Instance Twin_Action_eq_dec : EqDecision Twin_Action.
Proof. solve_decision. Defined.

#[global] Instance Twin_Action_countable : Countable Twin_Action :=
  inj_countable'
    (fun c => match c with Twin_A => false | Twin_B => true end)
    (fun b => if b then Twin_B else Twin_A)
    (fun c => match c with Twin_A => eq_refl | Twin_B => eq_refl end).

Definition Twin_Actions : ImageAction Twin_Action :=
  {| action_name _ := "resize"; widget_title _ := "Resize";
     status_msg _ := "Resizing"; add_to_ui _ := true;
     can_execute _ := false; execute _ := Base_Image_Action_execute;
     subclasses := [Twin_A; Twin_B] |}.

(* ================================================================== *)
(** ** The rest of Image_Object and Image_Batch *)

(** [Image_Object.checkout]: the Perforce calls are commented out, what is
    left refreshes [is_editable] and returns it. *)
Definition Image_Object_checkout : M ObjState bool :=
  _update_is_editable ;;;
  o <~ self ;;
  ret (is_editable o).

(** [Image_Object.submit] *)
Definition Image_Object_submit : M ObjState bool :=
  _update_is_editable ;;;
  o <~ self ;;
  ret (is_editable o).

(** [Image_Batch.set_save_log], on the copy of the flag that [save] reads. *)
Definition set_save_log (value : bool) (b : Image_Batch) : Image_Batch :=
  {| headless := headless b; frame := frame b; dirs := dirs b;
     extensions := extensions b; actions := actions b;
     log := {| log_filename := log_filename (log b);
               file_results := file_results (log b);
               file_fails := file_fails (log b); save_log := value;
               start_time := start_time (log b);
               end_time := end_time (log b);
               completed := completed (log b) |};
     status_value := status_value b; status_incr := status_incr b |}.

(** A red pixel the metal check accepts: not strictly between 0 and 255. *)
Definition metal_pixel (pixel : Z) : Prop := pixel <= 0 \/ 255 <= pixel.

(** A platform whose decoder rejects every file. *)
Module Unreadable.

Definition platform : Platform :=
  Build_Platform Posix.basename Posix.join Posix.splitext
    (fun _ => Raise IOError)
    (fun _ _ _ => (EmptyString, None))
    (fun _ => Ok "<root/>"%string).

End Unreadable.

(** ** Vocabulary for the properties of the batch *)

(** [c], started in a state where [pre] holds, ends with a result and in a
    state that satisfy [post], whether it returns or raises. *)
Definition hoare {S A} (pre : S -> Prop) (c : M S A)
    (post : result A -> S -> Prop) : Prop :=
  forall s, pre s -> post (fst (c s)) (snd (c s)).

(** [c] keeps [inv], however it ends. *)
Definition invariant {S A} (inv : S -> Prop) (c : M S A) : Prop :=
  hoare inv c (fun _ s => inv s).

(** The batch with another progress increment. *)
Definition with_status_incr (incr : float) (s : BatchState) : BatchState :=
  {| batch := {| headless := headless (batch s); frame := frame (batch s);
                 dirs := dirs (batch s); extensions := extensions (batch s);
                 actions := actions (batch s); log := log (batch s);
                 status_value := status_value (batch s);
                 status_incr := incr |};
     world := world s; trace := trace s |}.

(** Number of files the directories hold, according to [listing]. *)
Definition total_files (listing : string -> list string)
    (directories : list string) : Z :=
  fold_left (fun n d => n + Z.of_nat (length (listing d))) directories 0.

(** Nothing was recorded and no action is selected. *)
Definition nothing_to_record {C : Type} `{Countable C} {Act : ImageAction C}
    (s : BatchState) : Prop :=
  file_results (log (batch s)) = ∅
  /\ file_fails (log (batch s)) = ∅
  /\ get_subclass_actions_to_perform (batch s) = [].

(** The report is switched off and the trace holds no write of it. *)
Definition report_off (s : BatchState) : Prop :=
  save_log (log (batch s)) = false
  /\ Forall (fun ev => is_log_saved ev = false) (trace s).

(** The loops of [start] over the directories, the files and the actions. *)
Definition run_loops (P : Platform) {C : Type} `{Countable C}
    {Act : ImageAction C} : M BatchState unit :=
  b <~ this ;;
  for_each (dirs b) (process_directory P (get_subclass_actions_to_perform b)).

(** The statements of [start] after the loops. *)
Definition run_closing (P : Platform) : M BatchState unit :=
  t <~ in_env time_time ;;
  set_log (fun l => {| log_filename := log_filename l;
                       file_results := file_results l;
                       file_fails := file_fails l; save_log := save_log l;
                       start_time := start_time l; end_time := t;
                       completed := true |}) ;;;
  b <~ this ;;
  Log_File_save P (log b) ;;;
  update_status_value (Some (of_int 100)) ;;;
  update_status_msg "Batch Completed".

(** A headless run whose first event since [t0] is the progress value 0. *)
Definition headless_from_zero (t0 : list Event) (s : BatchState) : Prop :=
  headless (batch s) = true
  /\ exists mid, trace s = t0 ++ EvProgress (of_int 0) :: mid.

(** ** The check boxes of the actions *)

(** [Base_Image_Action.process_event_can_execute]: the class attribute
    [can_execute] of [cls] takes the state of the box.  [check_box] tells
    which classes have [wx.CheckBox] as their [widget_class]. *)
Definition process_event_can_execute {C : Type} `{EqDecision C}
    (check_box : C -> bool) (cls : C) (event_IsChecked : bool)
    (Act : ImageAction C) : ImageAction C :=
  if check_box cls then
    with_can_execute
      (fun c => if decide (c = cls) then event_IsChecked
                else @can_execute C Act c)
      Act
  else Act.

(** [Base_Image_Action.update_can_execute]: [cls] and [event] are what the
    two loops over [args] found. *)
Definition update_can_execute {C : Type} `{EqDecision C}
    (check_box : C -> bool) (cls : option C) (event : option bool)
    (Act : ImageAction C) : ImageAction C :=
  match cls, event with
  | Some cls, Some event => process_event_can_execute check_box cls event Act
  | _, _ => Act
  end.

(* ================================================================== *)
(** ** Image_Processor_Frame *)

From stdpp Require sorting.

(** The order of [str] values: character by character, by code. *)
Definition str_le (a b : string) : Prop := String.leb a b = true.

#[global] Instance str_le_dec (a b : string) : Decision (str_le a b).
Proof. unfold str_le. apply _. Defined.

(** [l.sort( )] on a list of strings. *)
Definition sort (l : list string) : list string :=
  sorting.merge_sort str_le l.

(** The constant once the module has run [IMAGE_EXTENSTIONS.sort( )]. *)
Definition IMAGE_EXTENSTIONS : list string :=
  sort ["tga"; "png"; "bmp"; "jpg"]%string.

(** [l.index( x )]: the first position of [x], [ValueError] without one. *)
Fixpoint index (x : string) (l : list string) : result nat :=
  match l with
  | [] => Raise ValueError
  | y :: rest =>
      if String.eqb y x then Ok 0%nat
      else match index x rest with
           | Ok i => Ok (S i)
           | Raise e => Raise e
           end
  end.

(** [list( set( l ) )]: the elements of [l] once each, in the order the set
    yields them; the handler sorts the list right after. *)
Definition list_of_set (l : list string) : list string :=
  elements (list_to_set l : gset string).

(** The attributes of the frame and the state of the widgets its handlers
    read and write: the flags of the check list box (one per entry of
    [IMAGE_EXTENSTIONS]), the items of the list box, and which controls are
    enabled. *)
Record Image_Processor_Frame := {
  frame_dirs : list string;
  frame_extensions : list string;
  frame_log_filepath : string;
  clb_extensions : list bool;
  lst_dirs : list string;
  btn_start_batch : bool;
  btn_rem_dir : bool;
  use_log : bool;
  txt_log_filename : bool;
  txt_log_path : bool;
  txt_log_path_value : string;
  btn_browse_log_path : bool
}.

Definition set_frame_dirs (v : list string) (f : Image_Processor_Frame)
  : Image_Processor_Frame :=
  {| frame_dirs := v; frame_extensions := frame_extensions f;
     frame_log_filepath := frame_log_filepath f;
     clb_extensions := clb_extensions f; lst_dirs := lst_dirs f;
     btn_start_batch := btn_start_batch f; btn_rem_dir := btn_rem_dir f;
     use_log := use_log f; txt_log_filename := txt_log_filename f;
     txt_log_path := txt_log_path f;
     txt_log_path_value := txt_log_path_value f;
     btn_browse_log_path := btn_browse_log_path f |}.

Definition set_frame_extensions (v : list string) (f : Image_Processor_Frame)
  : Image_Processor_Frame :=
  {| frame_dirs := frame_dirs f; frame_extensions := v;
     frame_log_filepath := frame_log_filepath f;
     clb_extensions := clb_extensions f; lst_dirs := lst_dirs f;
     btn_start_batch := btn_start_batch f; btn_rem_dir := btn_rem_dir f;
     use_log := use_log f; txt_log_filename := txt_log_filename f;
     txt_log_path := txt_log_path f;
     txt_log_path_value := txt_log_path_value f;
     btn_browse_log_path := btn_browse_log_path f |}.

(** [self.clb_extensions.Check( idx, value )] *)
Definition Check (idx : nat) (value : bool) : M Image_Processor_Frame unit :=
  modify (fun f =>
    {| frame_dirs := frame_dirs f; frame_extensions := frame_extensions f;
       frame_log_filepath := frame_log_filepath f;
       clb_extensions := <[idx := value]> (clb_extensions f);
       lst_dirs := lst_dirs f;
       btn_start_batch := btn_start_batch f; btn_rem_dir := btn_rem_dir f;
       use_log := use_log f; txt_log_filename := txt_log_filename f;
       txt_log_path := txt_log_path f;
       txt_log_path_value := txt_log_path_value f;
       btn_browse_log_path := btn_browse_log_path f |}).

(** [self.lst_dirs.SetItems( items )] *)
Definition SetItems (items : list string) : M Image_Processor_Frame unit :=
  modify (fun f =>
    {| frame_dirs := frame_dirs f; frame_extensions := frame_extensions f;
       frame_log_filepath := frame_log_filepath f;
       clb_extensions := clb_extensions f; lst_dirs := items;
       btn_start_batch := btn_start_batch f; btn_rem_dir := btn_rem_dir f;
       use_log := use_log f; txt_log_filename := txt_log_filename f;
       txt_log_path := txt_log_path f;
       txt_log_path_value := txt_log_path_value f;
       btn_browse_log_path := btn_browse_log_path f |}).

(** [self.btn_start_batch.Enable( value )] *)
Definition Enable_start_batch (value : bool) : M Image_Processor_Frame unit :=
  modify (fun f =>
    {| frame_dirs := frame_dirs f; frame_extensions := frame_extensions f;
       frame_log_filepath := frame_log_filepath f;
       clb_extensions := clb_extensions f; lst_dirs := lst_dirs f;
       btn_start_batch := value; btn_rem_dir := btn_rem_dir f;
       use_log := use_log f; txt_log_filename := txt_log_filename f;
       txt_log_path := txt_log_path f;
       txt_log_path_value := txt_log_path_value f;
       btn_browse_log_path := btn_browse_log_path f |}).

(** [self.btn_rem_dir.Enable( value )] *)
Definition Enable_rem_dir (value : bool) : M Image_Processor_Frame unit :=
  modify (fun f =>
    {| frame_dirs := frame_dirs f; frame_extensions := frame_extensions f;
       frame_log_filepath := frame_log_filepath f;
       clb_extensions := clb_extensions f; lst_dirs := lst_dirs f;
       btn_start_batch := btn_start_batch f; btn_rem_dir := value;
       use_log := use_log f; txt_log_filename := txt_log_filename f;
       txt_log_path := txt_log_path f;
       txt_log_path_value := txt_log_path_value f;
       btn_browse_log_path := btn_browse_log_path f |}).

(** The three [Enable] calls on the controls of the log path. *)
Definition Enable_log_controls (value : bool) : M Image_Processor_Frame unit :=
  modify (fun f =>
    {| frame_dirs := frame_dirs f; frame_extensions := frame_extensions f;
       frame_log_filepath := frame_log_filepath f;
       clb_extensions := clb_extensions f; lst_dirs := lst_dirs f;
       btn_start_batch := btn_start_batch f; btn_rem_dir := btn_rem_dir f;
       use_log := use_log f; txt_log_filename := value;
       txt_log_path := value;
       txt_log_path_value := txt_log_path_value f;
       btn_browse_log_path := value |}).

(** [self.txt_log_path.SetValue( value )].  The text event it sends runs
    [on_log_path_changed], which stores the same value in [log_filepath]
    again. *)
Definition SetValue_log_path (value : string) : M Image_Processor_Frame unit :=
  modify (fun f =>
    {| frame_dirs := frame_dirs f; frame_extensions := frame_extensions f;
       frame_log_filepath := value;
       clb_extensions := clb_extensions f; lst_dirs := lst_dirs f;
       btn_start_batch := btn_start_batch f; btn_rem_dir := btn_rem_dir f;
       use_log := use_log f; txt_log_filename := txt_log_filename f;
       txt_log_path := txt_log_path f;
       txt_log_path_value := value;
       btn_browse_log_path := btn_browse_log_path f |}).

(** [self.clb_extensions.GetChecked( )]: the positions of the checked
    boxes. *)
Fixpoint GetChecked_from (i : nat) (boxes : list bool) : list nat :=
  match boxes with
  | [] => []
  | b :: rest =>
      if b then i :: GetChecked_from (S i) rest
      else GetChecked_from (S i) rest
  end.

Definition GetChecked (f : Image_Processor_Frame) : list nat :=
  GetChecked_from 0 (clb_extensions f).

(** [self.clb_extensions.GetCheckedStrings( )]: the labels of the checked
    boxes. *)
Fixpoint checked_strings (labels : list string) (boxes : list bool)
  : list string :=
  match labels, boxes with
  | label :: labels', b :: boxes' =>
      if b then label :: checked_strings labels' boxes'
      else checked_strings labels' boxes'
  | _, _ => []
  end.

Definition GetCheckedStrings (f : Image_Processor_Frame) : list string :=
  checked_strings IMAGE_EXTENSTIONS (clb_extensions f).

(** [Image_Processor_Frame.refresh_ui] *)
Definition refresh_ui : M Image_Processor_Frame unit :=
  f <~ get ;;
  for_each (frame_extensions f)
    (fun ext =>
       idx <~ of_result (index (lower ext) (map lower IMAGE_EXTENSTIONS)) ;;
       if (0 <? idx)%nat then Check idx true else Check idx false) ;;;
  Enable_start_batch false ;;;
  f <~ get ;;
  when (truthy (frame_dirs f)) (Enable_start_batch true) ;;;
  Enable_rem_dir false ;;;
  f <~ get ;;
  when (truthy (frame_dirs f)) (Enable_rem_dir true) ;;;
  f <~ get ;;
  when (length (GetChecked f) =? 0)%nat (Enable_start_batch false) ;;;
  f <~ get ;;
  (if use_log f then Enable_log_controls true
   else Enable_log_controls false) ;;;
  f <~ get ;;
  SetValue_log_path (frame_log_filepath f).

(** [Image_Processor_Frame.on_exts_changed] *)
Definition on_exts_changed : M Image_Processor_Frame unit :=
  f <~ get ;;
  modify (set_frame_extensions (GetCheckedStrings f)) ;;;
  refresh_ui.

(** [Image_Processor_Frame.on_add_dir_pressed]; [chosen] is the path of the
    dialog, [None] when it was cancelled. *)
Definition on_add_dir_pressed (chosen : option string)
  : M Image_Processor_Frame unit :=
  let dir_to_add := match chosen with Some path => [path] | None => [] end in
  when (truthy dir_to_add)
    (modify (fun f => set_frame_dirs (frame_dirs f ++ dir_to_add) f) ;;;
     modify (fun f => set_frame_dirs (list_of_set (frame_dirs f)) f) ;;;
     modify (fun f => set_frame_dirs (sort (frame_dirs f)) f) ;;;
     f <~ get ;;
     SetItems (frame_dirs f)) ;;;
  refresh_ui.

(** The boxes of the check list box pair with the labels. *)
Definition boxes_match_labels (f : Image_Processor_Frame) : Prop :=
  length (clb_extensions f) = length IMAGE_EXTENSTIONS.

(** [ext] is one of the known extensions, whatever its case. *)
Definition known_extension (ext : string) : bool :=
  str_in (lower ext) (map lower IMAGE_EXTENSTIONS).

(* ================================================================== *)
(** * Properties *)

(** ** Running a computation *)

Lemma bind_ok {S A B} (c : M S A) (k : A -> M S B) (s s' : S) (a : A) :
  c s = (Ok a, s') -> bind c k s = k a s'.
Proof. intros Hc. unfold bind. by rewrite Hc. Qed.

Lemma bind_raise {S A B} (c : M S A) (k : A -> M S B) (s s' : S) (e : exn) :
  c s = (Raise e, s') -> bind c k s = (Raise e, s').
Proof. intros Hc. unfold bind. by rewrite Hc. Qed.

(** ** Strings and lists *)

Lemma str_in_elem (x : string) (l : list string) : str_in x l = true <-> x ∈ l.
Proof.
  unfold str_in. rewrite existsb_exists, list_elem_of_In. split.
  - intros (y & Hy & Heq). apply String.eqb_eq in Heq. by subst.
  - intros Hx. exists x. split; [done | apply String.eqb_refl].
Qed.

Lemma split_not_nil (sep : ascii) (s : string) : split sep s <> [].
Proof.
  destruct s as [| c rest]; simpl; [done |].
  destruct (Ascii.eqb c sep); [done |].
  by destruct (split sep rest).
Qed.

(** A function whose image of [l] has no duplicate is injective on [l]. *)
Lemma NoDup_fmap_inj_on {A B} (f : A -> B) (l : list A) :
  NoDup (map f l) -> forall x y, x ∈ l -> y ∈ l -> f x = f y -> x = y.
Proof.
  induction l as [| a l IH]; simpl; intros Hnd x y Hx Hy Hf.
  - by apply elem_of_nil in Hx.
  - apply NoDup_cons in Hnd as [Ha Hnd].
    apply elem_of_cons in Hx as [-> | Hx]; apply elem_of_cons in Hy as [-> | Hy];
      try done.
    + exfalso. apply Ha. rewrite Hf. by apply (list_elem_of_fmap_2 f).
    + exfalso. apply Ha. rewrite <- Hf. by apply (list_elem_of_fmap_2 f).
    + by apply IH.
Qed.

(** ** Selection of the actions *)

Section Selection.

Context {C : Type} {Ceq : EqDecision C} {Ccount : Countable C}
        {Act : ImageAction C}.

Lemma collect_actions_from (b : Image_Batch) (classes acc : list C) (c : C) :
  c ∈ fold_left (consider_action b) classes acc
  <-> c ∈ acc \/ (c ∈ classes /\ selected b c = true).
Proof.
  unfold selected. revert acc.
  induction classes as [| k classes IH]; intros acc; simpl.
  - split; [auto | intros [? | [Hc _]]; [done | by apply elem_of_nil in Hc]].
  - rewrite IH. clear IH. rewrite elem_of_cons. unfold consider_action.
    destruct (actions_given b).
    + destruct (str_in (action_name k) (default [] (actions b))) eqn:Hk.
      * rewrite elem_of_app, list_elem_of_singleton.
        intuition (subst; auto).
      * split; [intuition auto |].
        intros [? | [[-> | ?] Hsel]]; [auto | congruence | auto].
    + destruct (can_execute k) eqn:Hk.
      * rewrite elem_of_app, list_elem_of_singleton.
        intuition (subst; auto).
      * split; [intuition auto |].
        intros [? | [[-> | ?] Hsel]]; [auto | congruence | auto].
Qed.

Lemma elem_of_collect_actions (b : Image_Batch) (classes : list C) (c : C) :
  c ∈ collect_actions b classes <-> c ∈ classes /\ selected b c = true.
Proof.
  unfold collect_actions. rewrite collect_actions_from.
  split; [intros [Hc | ?]; [by apply elem_of_nil in Hc | done] | auto].
Qed.

Lemma elem_of_actions_to_perform (b : Image_Batch) (c : C) :
  c ∈ get_subclass_actions_to_perform b
  <-> c ∈ subclasses /\ selected b c = true.
Proof.
  unfold get_subclass_actions_to_perform.
  by rewrite elem_of_elements, elem_of_list_to_set, elem_of_collect_actions.
Qed.

Lemma NoDup_actions_to_perform (b : Image_Batch) :
  NoDup (get_subclass_actions_to_perform b).
Proof. apply NoDup_elements. Qed.

Lemma NoDup_names_to_perform (b : Image_Batch) :
  NoDup (map action_name subclasses) ->
  NoDup (map action_name (get_subclass_actions_to_perform b)).
Proof.
  intros Hnames. apply NoDup_fmap_2_strong.
  - intros x y Hx Hy. apply (NoDup_fmap_inj_on _ _ Hnames).
    + by apply elem_of_actions_to_perform in Hx as [? _].
    + by apply elem_of_actions_to_perform in Hy as [? _].
  - apply NoDup_actions_to_perform.
Qed.

End Selection.

Section SelectionFlags.

Context {C : Type} {Ceq : EqDecision C} {Ccount : Countable C}.

(** With a non-empty [actions] list the loop never reads [can_execute]. *)
Lemma collect_actions_flags (Act : ImageAction C) (flags : C -> bool)
    (b : Image_Batch) (classes : list C) :
  actions_given b = true ->
  @collect_actions C (with_can_execute flags Act) b classes
  = @collect_actions C Act b classes.
Proof.
  intros Hgiven. unfold collect_actions. generalize (@nil C).
  assert (Hstep : forall acc k,
             @consider_action C (with_can_execute flags Act) b acc k
             = @consider_action C Act b acc k).
  { intros acc k. unfold consider_action. by rewrite Hgiven. }
  induction classes as [| k classes IH]; intros acc; simpl; [done |].
  rewrite Hstep. apply IH.
Qed.

(** Without a usable [actions] list the loop never reads the list. *)
Lemma collect_actions_default (Act : ImageAction C) (b : Image_Batch)
    (classes : list C) :
  actions_given b = false ->
  collect_actions b classes = collect_actions (with_actions None b) classes.
Proof.
  intros Hgiven. unfold collect_actions. generalize (@nil C).
  assert (Hstep : forall acc k,
             consider_action b acc k
             = consider_action (with_actions None b) acc k).
  { intros acc k. unfold consider_action. by rewrite Hgiven. }
  induction classes as [| k classes IH]; intros acc; simpl; [done |].
  rewrite Hstep. apply IH.
Qed.

End SelectionFlags.

(** The command line never yields an empty [actions] list: [split] returns
    at least one string. *)
Lemma parse_arguments_actions (arguments : list string) :
  arg_actions (parse_arguments arguments) <> Some [].
Proof.
  unfold parse_arguments.
  match goal with
  | |- arg_actions (fold_left ?f _ ?init) <> _ =>
      assert (Hinit : arg_actions init <> Some []) by done;
      revert Hinit; generalize init
  end.
  induction arguments as [| arg rest IH]; intros a Ha; simpl; [done |].
  apply IH.
  destruct (startswith arg ARG_DIRS), (startswith arg ARG_EXTENTIONS),
    (startswith arg ARG_ACTIONS) eqn:Hact,
    (startswith arg ARG_LOG_FILEPATH); simpl; try done;
    intros [= Hsplit]; by apply split_not_nil in Hsplit.
Qed.


(** *** Claims C3 and C10 *)

(** C3 (as the code has it).  For every [actions] list that is not empty,
    [get_subclass_actions_to_perform] returns exactly the registered classes
    whose [action_name] is in the list, whatever their [can_execute] flags;
    names in the list that no class carries change nothing.  No class is
    returned twice, and no [action_name] is returned twice when the
    registered classes have distinct names. *)
Theorem C3_allow_list_selection {C : Type} {Ceq : EqDecision C}
    {Ccount : Countable C} (Act : ImageAction C)
    (b : Image_Batch) (ids : list string) :
  actions b = Some ids ->
  truthy ids = true ->
  (forall c, c ∈ get_subclass_actions_to_perform b
             <-> c ∈ subclasses /\ action_name c ∈ ids)
  /\ (forall flags,
        @get_subclass_actions_to_perform C _ _ (with_can_execute flags Act) b
        = get_subclass_actions_to_perform b)
  /\ NoDup (get_subclass_actions_to_perform b)
  /\ (NoDup (map action_name subclasses) ->
      NoDup (map action_name (get_subclass_actions_to_perform b))).
Proof.
  intros Hids Hnonempty.
  assert (Hgiven : actions_given b = true).
  { unfold actions_given. by rewrite Hids. }
  split; [| split; [| split]].
  - intros c. rewrite elem_of_actions_to_perform.
    unfold selected. rewrite Hgiven, Hids. simpl.
    by rewrite str_in_elem.
  - intros flags. unfold get_subclass_actions_to_perform.
    by rewrite collect_actions_flags.
  - apply NoDup_actions_to_perform.
  - apply NoDup_names_to_perform.
Qed.

Lemma C3_allow_list_selection_witness :
  let b := Sample.batch_of ["/art"] (Some ["check_power_of_2"; "sharpen"]) in
  (forall c, c ∈ @get_subclass_actions_to_perform _ _ _ Sample.actions b
             <-> c ∈ @subclasses _ Sample.actions
                 /\ @action_name _ Sample.actions c
                    ∈ ["check_power_of_2"; "sharpen"])
  /\ @get_subclass_actions_to_perform _ _ _ Sample.actions b
     = [Action_Check_Power_Of_2].
Proof.
  split.
  - apply (C3_allow_list_selection Sample.actions
             (Sample.batch_of ["/art"] (Some ["check_power_of_2"; "sharpen"]))
             ["check_power_of_2"; "sharpen"]); reflexivity.
  - vm_compute. reflexivity.
Defined.

(** C3 fails as stated on two counts.  An empty list is not null, yet the
    selection returns the default-enabled class and not the classes named by
    the list (none).  And two classes registered under one name are both
    returned. *)
Lemma C3_counterexample :
  (let b := Sample.batch_of ["/art"] (Some []) in
   actions b <> None
   /\ Action_Compress_PNG ∈ @get_subclass_actions_to_perform _ _ _ Sample.actions b
   /\ ~ @action_name _ Sample.actions Action_Compress_PNG ∈ default [] (actions b))
  /\ (let b := Sample.batch_of ["/art"] (Some ["resize"]) in
      ~ NoDup (map (@action_name _ Twin_Actions)
                   (@get_subclass_actions_to_perform _ _ _ Twin_Actions b))).
Proof.
  split.
  - simpl. split; [done |]. split.
    + vm_compute. apply list_elem_of_here.
    + apply not_elem_of_nil.
  - simpl. vm_compute. intros Hnd.
    apply NoDup_cons in Hnd as [Hin _]. apply Hin, list_elem_of_here.
Qed.

(** C10 (as the code has it).  With the empty list for [actions] the
    selection is the one made without a list: exactly the registered classes
    whose [can_execute] is true.  The command line never gives that list:
    [-actions=] with nothing behind it gives the list of one empty string. *)
Theorem C10_empty_list_selects_defaults {C : Type} {Ceq : EqDecision C}
    {Ccount : Countable C} (Act : ImageAction C) (b : Image_Batch) :
  actions b = Some [] ->
  get_subclass_actions_to_perform b
  = get_subclass_actions_to_perform (with_actions None b)
  /\ (forall c, c ∈ get_subclass_actions_to_perform b
                <-> c ∈ subclasses /\ can_execute c = true)
  /\ (forall arguments, arg_actions (parse_arguments arguments) <> Some []).
Proof.
  intros Hids.
  assert (Hgiven : actions_given b = false).
  { unfold actions_given. by rewrite Hids. }
  split; [| split].
  - unfold get_subclass_actions_to_perform.
    by rewrite (collect_actions_default Act b subclasses Hgiven).
  - intros c. rewrite elem_of_actions_to_perform.
    unfold selected. by rewrite Hgiven.
  - apply parse_arguments_actions.
Qed.

Lemma C10_empty_list_selects_defaults_witness :
  let b := Sample.batch_of ["/art"] (Some []) in
  @get_subclass_actions_to_perform _ _ _ Sample.actions b
  = @get_subclass_actions_to_perform _ _ _ Sample.actions (with_actions None b)
  /\ @get_subclass_actions_to_perform _ _ _ Sample.actions b
     = [Action_Compress_PNG].
Proof.
  split.
  - apply (C10_empty_list_selects_defaults Sample.actions
             (Sample.batch_of ["/art"] (Some []))). reflexivity.
  - vm_compute. reflexivity.
Defined.

(** C10 fails on its example: the argument [-actions=] makes [run] build
    the list [['']], which is not empty, and the selection returns no class
    although one class is enabled by default. *)
Lemma C10_counterexample :
  let b := headless_batch "/report.xml" ["-headless"; "-actions="] in
  actions b = Some [""]
  /\ @get_subclass_actions_to_perform _ _ _ Sample.actions b = []
  /\ List.filter (@can_execute _ Sample.actions) (@subclasses _ Sample.actions)
     = [Action_Compress_PNG].
Proof. vm_compute. repeat split. Qed.

(** ** The image actions *)

(** Unfolds the plumbing of the monad so that a computation on a concrete
    state shape can be evaluated step by step. *)
Ltac run_step :=
  unfold bind, ret, raise, get, modify, of_result, when, self, set_self,
    in_world; simpl.

Lemma open_if_needed (P : Platform) (o : Image_Object) (w : World) (img : Image) :
  loaded P o w img ->
  when (negb (is_open o)) (Image_Object_open P) (o, w)
  = (Ok tt, (opened o img, w)).
Proof.
  unfold loaded, opened. destruct o as [name im editable op]; simpl.
  destruct op; simpl.
  - intros ->. reflexivity.
  - intros (content & m & Hfile & Hdecode).
    unfold Image_Object_open. run_step. rewrite Hfile, Hdecode. reflexivity.
Qed.

(** The bit test singles out the powers of two. *)
Lemma is_pow2_spec (n : Z) : is_pow2 n = true <-> exists k, 0 <= k /\ n = 2 ^ k.
Proof.
  unfold is_pow2. rewrite andb_true_iff, negb_true_iff, !Z.eqb_eq, Z.eqb_neq.
  split.
  - intros [Hnz Hland].
    assert (Hpos : 0 < n).
    { destruct (Z.lt_trichotomy n 0) as [Hneg | [? | ?]]; [| done | done].
      exfalso. assert (Z.land n (n - 1) < 0) by (apply Z.land_neg; lia). lia. }
    exists (Z.log2 n). split; [apply Z.log2_nonneg |].
    destruct (Z.log2_spec n Hpos) as [Hlo Hhi].
    destruct (Z.eq_dec n (2 ^ Z.log2 n)) as [? | Hne]; [done | exfalso].
    assert (Hbit : Z.testbit (Z.land n (n - 1)) (Z.log2 n) = true).
    { rewrite Z.land_spec, (Z.bit_log2 n Hpos). simpl.
      assert (Hlog : Z.log2 (n - 1) = Z.log2 n).
      { apply Z.log2_unique; [apply Z.log2_nonneg | lia]. }
      rewrite <- Hlog. apply Z.bit_log2. pose proof (Z.pow_pos_nonneg 2 (Z.log2 n)).
      pose proof (Z.log2_nonneg n). lia. }
    rewrite Hland, Z.bits_0 in Hbit. discriminate.
  - intros (k & Hk & ->). split.
    + pose proof (Z.pow_pos_nonneg 2 k). lia.
    + replace (2 ^ k - 1) with (Z.ones k) by (rewrite Z.ones_equiv; lia).
      rewrite Z.land_ones by done. apply Z_mod_same_full.
Qed.

(** *** Claim C4 *)

(** C4.  On a file whose name does not end in [.png], whatever the case of
    its letters, [Action_Compress_PNG.execute] returns [False] with the
    message naming the file, and leaves the object (so the image is not
    opened) and the whole world (so the file keeps its bytes) as they
    were. *)
Theorem C4_compress_skips_other_files (P : Platform) (o : Image_Object)
    (w : World) :
  endswith (lower (filename o)) ".png" = false ->
  Action_Compress_PNG_execute P (o, w)
  = (Ok (false, (basename P (filename o) ++ " is not a PNG file")%string), (o, w)).
Proof.
  intros Hext. unfold Action_Compress_PNG_execute. run_step.
  rewrite Hext. reflexivity.
Qed.

Lemma C4_compress_skips_other_files_witness :
  let o := {| filename := "/art/notes.txt"; image := None;
              is_editable := false; is_open := false |} in
  Action_Compress_PNG_execute Sample.platform (o, Sample.disk)
  = (Ok (false, "notes.txt is not a PNG file"%string), (o, Sample.disk)).
Proof.
  apply (C4_compress_skips_other_files Sample.platform
           {| filename := "/art/notes.txt"; image := None;
              is_editable := false; is_open := false |} Sample.disk).
  reflexivity.
Defined.

(** *** Claim C7 *)

(** C7 (as the code has it).  Once the image is loaded,
    [Action_Check_Power_Of_2.execute] succeeds exactly when the width and
    the height both pass the bit test.  When it fails the message is one
    fixed sentence around the two dimensions, the same whichever of them
    failed. *)
Theorem C7_power_of_2_verdict (P : Platform) (o : Image_Object) (w : World)
    (img : Image) :
  loaded P o w img ->
  exists success msg,
    Action_Check_Power_Of_2_execute P (o, w)
    = (Ok (success, msg), (opened o img, w))
    /\ (success = true <-> is_pow2 (fst (size img)) = true
                           /\ is_pow2 (snd (size img)) = true)
    /\ (success = false ->
        msg = ("Either Width:" ++ str_int (fst (size img)) ++ " or Height:"
               ++ str_int (snd (size img))
               ++ " is NOT a proper power of 2")%string).
Proof.
  intros Hloaded.
  exists (fst (power_of_2_verdict (fst (size img)) (snd (size img)))),
         (snd (power_of_2_verdict (fst (size img)) (snd (size img)))).
  split; [| split].
  - unfold Action_Check_Power_Of_2_execute, bind at 1. unfold self at 1.
    simpl. unfold bind at 1. rewrite (open_if_needed P o w img Hloaded).
    run_step. destruct (size img) as [wd h]. simpl.
    by destruct (power_of_2_verdict wd h).
  - unfold power_of_2_verdict.
    destruct (is_pow2 (fst (size img))), (is_pow2 (snd (size img)));
      simpl; intuition congruence.
  - unfold power_of_2_verdict.
    destruct (is_pow2 (fst (size img)) && is_pow2 (snd (size img)));
      simpl; [discriminate | done].
Qed.

Lemma C7_power_of_2_verdict_witness :
  exists success msg,
    Action_Check_Power_Of_2_execute Sample.platform
      (Sample.fresh "/art/stone_mra.png", Sample.disk)
    = (Ok (success, msg),
       (opened (Sample.fresh "/art/stone_mra.png") Sample.picture, Sample.disk))
    /\ (success = true <-> is_pow2 300 = true /\ is_pow2 128 = true)
    /\ (success = false ->
        msg = "Either Width:300 or Height:128 is NOT a proper power of 2"%string).
Proof.
  apply (C7_power_of_2_verdict Sample.platform
           (Sample.fresh "/art/stone_mra.png") Sample.disk Sample.picture).
  simpl. exists Sample.sixty_bytes, 420. split; reflexivity.
Defined.

(** C7 fails on the wording of the failure: a 300 x 128 image, whose width
    fails, and a 128 x 300 image, whose height fails, get the same sentence
    around their numbers, so the report does not tell which dimension
    failed. *)
Lemma C7_counterexample :
  fst (Action_Check_Power_Of_2_execute Sample.platform
         (Sample.holding "/art/stone_mra.png" 300 128, Sample.disk))
  = Ok (false, "Either Width:300 or Height:128 is NOT a proper power of 2"%string)
  /\ fst (Action_Check_Power_Of_2_execute Sample.platform
            (Sample.holding "/art/stone_mra.png" 128 300, Sample.disk))
     = Ok (false, "Either Width:128 or Height:300 is NOT a proper power of 2"%string)
  /\ (is_pow2 300, is_pow2 128) = (false, true)
  /\ ~ tells_failed_dimension (fun w h => snd (power_of_2_verdict w h)).
Proof.
  split; [reflexivity |]. split; [reflexivity |]. split; [reflexivity |].
  intros [cited Hcited].
  pose proof (Hcited 300 128 eq_refl) as Hwidth.
  pose proof (Hcited 128 300 eq_refl) as Hheight.
  vm_compute in Hwidth, Hheight. congruence.
Qed.

(** *** Claims C5 and C6 *)

Lemma update_is_editable_run (P : Platform) (o : Image_Object) (w : World)
    (content : string) (m : Z) :
  fs w !! filename o = Some (File content m) ->
  _update_is_editable (o, w) = (Ok tt, (with_editable (writable m) o, w)).
Proof.
  intros Hfile. unfold _update_is_editable, os_stat. run_step.
  rewrite Hfile. simpl. unfold writable, with_editable.
  destruct (Z.land m S_IWRITE =? 0); reflexivity.
Qed.

(** What [Action_Compress_PNG.execute] does on a PNG file that decodes and
    that PIL re-encodes without error: the verdict is taken on the sizes
    before and after, and the file holds the new bytes if it was writable. *)
Lemma compress_png_run (P : Platform) (o : Image_Object) (w : World)
    (content : string) (m : Z) (img : Image) (written : string) :
  endswith (lower (filename o)) ".png" = true ->
  fs w !! filename o = Some (File content m) ->
  loaded P o w img ->
  Image_save P img (filename o) true = (written, None) ->
  let new_content := if writable m then written else content in
  let w' := if writable m then write_bytes (filename o) written w else w in
  Action_Compress_PNG_execute P (o, w)
  = (compression_verdict (Z.of_nat (String.length content))
                         (Z.of_nat (String.length new_content)),
     (with_editable (writable m) (opened o img), w'))
  /\ fs w' !! filename o = Some (File new_content m).
Proof.
  intros Hext Hfile Hloaded Hsave. simpl.
  assert (Hnew : fs (if writable m then write_bytes (filename o) written w else w)
                 !! filename o
                 = Some (File (if writable m then written else content) m)).
  { destruct (writable m); [| done].
    unfold write_bytes, set_fs. simpl. rewrite Hfile. apply lookup_insert_eq. }
  split; [| done].
  assert (Hstat : forall o' : Image_Object,
             in_world (os_stat (filename o)) (o', w)
             = (Ok (m, Z.of_nat (String.length content)), (o', w))).
  { intros o'. unfold os_stat. run_step. by rewrite Hfile. }
  unfold Action_Compress_PNG_execute.
  rewrite (bind_ok self _ (o, w) (o, w) o eq_refl), Hext.
  rewrite (bind_ok _ _ _ _ _ (Hstat o)).
  rewrite (bind_ok _ _ _ _ _ (open_if_needed P o w img Hloaded)).
  unfold Image_Object_save.
  rewrite (bind_ok (B := bool * string) (bind _ _) _ (opened o img, w)
             (with_editable (writable m) (opened o img),
              if writable m then write_bytes (filename o) written w else w) tt).
  - unfold os_stat. run_step. by rewrite Hnew.
  - rewrite (bind_ok _ _ _ _ _
               (update_is_editable_run P (opened o img) w content m Hfile)).
    run_step. destruct (writable m); simpl; [| done].
    by rewrite Hsave.
Qed.

(** *** The figure of the compression report *)

Lemma append_cons (c : ascii) (a b : string) :
  (String c a ++ b)%string = String c (a ++ b)%string.
Proof. reflexivity. Qed.

Lemma append_nil (b : string) : (EmptyString ++ b)%string = b.
Proof. reflexivity. Qed.

Lemma string_app_assoc (a b c : string) :
  ((a ++ b) ++ c = a ++ (b ++ c))%string.
Proof.
  induction a as [| x a IH]; [done |]. by rewrite !append_cons, IH.
Qed.

Lemma substring_all (s : string) : substring 0 (String.length s) s = s.
Proof. induction s as [| c s IH]; simpl; [done | by rewrite IH]. Qed.

Lemma substring_app_l (a b : string) :
  substring 0 (String.length a) (a ++ b) = a.
Proof.
  induction a as [| c a IH].
  - rewrite append_nil. by destruct b.
  - rewrite append_cons. simpl. by rewrite IH.
Qed.

Lemma substring_app_r (a b : string) :
  substring (String.length a) (String.length b) (a ++ b) = b.
Proof.
  induction a as [| c a IH].
  - rewrite append_nil. apply substring_all.
  - rewrite append_cons. simpl. exact IH.
Qed.

Lemma length_app (a b : string) :
  String.length (a ++ b) = (String.length a + String.length b)%nat.
Proof.
  induction a as [| c a IH]; [done |].
  rewrite append_cons. simpl. by rewrite IH.
Qed.

(** With at least two characters behind it, the head of [kb_raw] is set
    before the point and the last two characters after it. *)
Lemma kb_str_app (a : string) (c1 c0 : ascii) :
  kb_str (a ++ String c1 (String c0 EmptyString))
  = (a ++ "." ++ String c1 (String c0 EmptyString))%string.
Proof.
  unfold kb_str, slice, clamp_index. rewrite length_app. simpl String.length.
  set (n := String.length a).
  replace (Z.of_nat (n + 2) + -2) with (Z.of_nat n) by lia.
  destruct (Z.ltb_spec 0 0) as [? | _]; [lia |].
  destruct (Z.ltb_spec (-2) 0) as [_ | ?]; [| lia].
  destruct (Z.ltb_spec (Z.of_nat (n + 2)) 0) as [? | _]; [lia |].
  rewrite Z.min_l, Z.max_l, Z.min_r by lia.
  replace (Z.to_nat 0) with 0%nat by done.
  replace (Z.to_nat (Z.of_nat n - 0)) with n by lia.
  replace (Z.to_nat (Z.of_nat n)) with n by lia.
  replace (Z.to_nat (Z.of_nat (n + 2) - Z.of_nat n))
    with (String.length (String c1 (String c0 EmptyString))) by (simpl; lia).
  subst n. by rewrite substring_app_l, substring_app_r.
Qed.

Lemma pretty_N_go_app (x : N) (s : string) :
  pretty_N_go x s = (pretty_N_go x "" ++ s)%string.
Proof.
  revert s. induction (N.lt_wf_0 x) as [x _ IH]; intros s.
  destruct (N.eq_dec x 0%N) as [-> | Hx]; [by rewrite !pretty_N_go_0 |].
  assert (Hpos : (0 < x)%N) by lia.
  rewrite (pretty_N_go_step x s Hpos), (pretty_N_go_step x "" Hpos).
  assert (Hlt : (x `div` 10 < x)%N) by (apply N.div_lt; lia).
  rewrite (IH _ Hlt (String _ s)), (IH _ Hlt (String _ "")).
  by rewrite string_app_assoc.
Qed.

Lemma pretty_N_hundreds (x : N) :
  (100 <= x)%N ->
  pretty x = (pretty (x `div` 100)%N
              ++ String (pretty_N_char ((x `div` 10) `mod` 10))
                   (String (pretty_N_char (x `mod` 10)) ""))%string.
Proof.
  intros Hx. unfold pretty, pretty_N.
  assert (Hq : ((x `div` 10) `div` 10 = x `div` 100)%N).
  { rewrite N.Div0.div_div. done. }
  assert (H10 : (0 < x `div` 10)%N).
  { apply N.div_str_pos. lia. }
  assert (H100 : (0 < x `div` 100)%N).
  { apply N.div_str_pos. lia. }
  destruct (decide (x = 0%N)) as [? | _]; [lia |].
  destruct (decide ((x `div` 100)%N = 0%N)) as [? | _]; [lia |].
  rewrite (pretty_N_go_step x "") by lia.
  rewrite (pretty_N_go_step (x `div` 10)) by done.
  rewrite Hq. apply pretty_N_go_app.
Qed.

Lemma str_int_hundreds (n : Z) :
  100 <= n -> str_int n = (str_int (n / 100) ++ two_digits n)%string.
Proof.
  intros Hn. unfold str_int, two_digits.
  assert (Hq : 0 < n / 100) by (apply Z.div_str_pos; lia).
  destruct n as [| p | p]; try lia.
  destruct (Z.pos p / 100) as [| q | q] eqn:Hdiv; try lia.
  unfold pretty at 1 2, pretty_Z, pretty, pretty_positive.
  rewrite (pretty_N_hundreds (N.pos p)) by lia.
  assert (Hq' : (N.pos p `div` 100)%N = N.pos q).
  { apply N2Z.inj. rewrite N2Z.inj_div. simpl Z.of_N. by rewrite Hdiv. }
  rewrite Hq'.
  rewrite Z2N.inj_mod, Z2N.inj_div, Z2N.inj_mod; try lia.
  - reflexivity.
  - apply Z.div_pos; lia.
Qed.

Lemma kb_str_hundreds (cents : Z) :
  100 <= cents ->
  kb_str (str_int cents)
  = (str_int (cents / 100) ++ "." ++ two_digits cents)%string.
Proof.
  intros Hc. rewrite (str_int_hundreds cents Hc). apply kb_str_app.
Qed.

Lemma compression_verdict_no_saving (old new : Z) :
  old <= new ->
  compression_verdict old new
  = Ok (false,
        if new =? old then "Compression did not save any memory on disk"%string
        else "Failed to complete the action for unknown reasons"%string).
Proof.
  intros Hle. unfold compression_verdict.
  destruct (0 <? old - new) eqn:Hpos; [apply Z.ltb_lt in Hpos; lia |].
  destruct (Z.eqb_spec (old - new) 0) as [Heq | Hne].
  - replace new with old by lia. by rewrite Z.eqb_refl.
  - destruct (Z.eqb_spec new old); [lia | done].
Qed.

(** A one-digit [kb_raw] loses its place: the figure becomes a point
    followed by that digit. *)
Lemma kb_str_one_digit (cents : Z) :
  0 <= cents < 10 -> kb_str (str_int cents) = ("." ++ str_int cents)%string.
Proof.
  intros Hrange.
  assert (Hcases : cents = 0 \/ cents = 1 \/ cents = 2 \/ cents = 3 \/ cents = 4
                   \/ cents = 5 \/ cents = 6 \/ cents = 7 \/ cents = 8
                   \/ cents = 9) by lia.
  repeat (destruct Hcases as [-> | Hcases]; [reflexivity |]).
  subst. reflexivity.
Qed.

(** C5, at a saving of 52 bytes.  The file shrinks from 60 to 8 bytes, that
    is by 0.05 kilobytes once truncated to two decimals ([5] hundredths),
    and the report reads [.5]. *)
Theorem C5_small_saving_report :
  let run := Action_Compress_PNG_execute Sample.platform
               (Sample.fresh "/art/stone_mra.png", Sample.disk) in
  fst (os_stat "/art/stone_mra.png" Sample.disk) = Ok (420, 60)
  /\ fst (os_stat "/art/stone_mra.png" (snd (snd run))) = Ok (420, 8)
  /\ (60 - 8) * 100 / 1024 = 5
  /\ fst run = Ok (true, "Compression saved .5 kbs on disk"%string).
Proof. vm_compute. repeat split. Qed.

(** C6 (as the code has it).  On a PNG file that is not smaller after the
    re-save, [Action_Compress_PNG.execute] returns [False]; the message is
    "Compression did not save any memory on disk" when the size is the
    same, and the first value of [report_msg], "Failed to complete the
    action for unknown reasons", when the file has grown. *)
Theorem C6_no_saving_verdict (P : Platform) (o : Image_Object) (w : World)
    (content : string) (m : Z) (img : Image) (written : string) :
  endswith (lower (filename o)) ".png" = true ->
  fs w !! filename o = Some (File content m) ->
  loaded P o w img ->
  Image_save P img (filename o) true = (written, None) ->
  let new_content := if writable m then written else content in
  let run := Action_Compress_PNG_execute P (o, w) in
  (String.length content <= String.length new_content)%nat ->
  fs (snd (snd run)) !! filename o = Some (File new_content m)
  /\ fst run
     = Ok (false,
           if (String.length new_content =? String.length content)%nat
           then "Compression did not save any memory on disk"%string
           else "Failed to complete the action for unknown reasons"%string).
Proof.
  intros Hext Hfile Hloaded Hsave new_content run Hsize.
  destruct (compress_png_run P o w content m img written
              Hext Hfile Hloaded Hsave) as [Hrun Hnew].
  subst run. rewrite Hrun. simpl. split; [exact Hnew |].
  fold new_content. rewrite compression_verdict_no_saving by lia.
  do 2 f_equal.
  destruct (Nat.eqb_spec (String.length new_content) (String.length content))
    as [Heq | Hne].
  - rewrite Heq. by rewrite Z.eqb_refl.
  - destruct (Z.eqb_spec (Z.of_nat (String.length new_content))
                (Z.of_nat (String.length content))); [lia | done].
Qed.

Lemma C6_no_saving_verdict_witness :
  let run := Action_Compress_PNG_execute Sample.bloating_platform
               (Sample.fresh "/art/stone_mra.png", Sample.disk) in
  fs (snd (snd run)) !! "/art/stone_mra.png"
  = Some (File "0123456789012345678901234567890123456789012345678901234567890123" 420)
  /\ fst run
     = Ok (false, "Failed to complete the action for unknown reasons"%string).
Proof.
  apply (C6_no_saving_verdict Sample.bloating_platform
           (Sample.fresh "/art/stone_mra.png") Sample.disk
           Sample.sixty_bytes 420 Sample.picture
           "0123456789012345678901234567890123456789012345678901234567890123").
  - reflexivity.
  - reflexivity.
  - simpl. exists Sample.sixty_bytes, 420. split; reflexivity.
  - reflexivity.
  - vm_compute. lia.
Defined.

(** C6 fails on the message of a file that grew: 60 bytes re-saved as 64
    bytes are reported with the first value of [report_msg], not with the
    message of the equal case. *)
Lemma C6_counterexample :
  let run := Action_Compress_PNG_execute Sample.bloating_platform
               (Sample.fresh "/art/stone_mra.png", Sample.disk) in
  fst (os_stat "/art/stone_mra.png" Sample.disk) = Ok (420, 60)
  /\ fst (os_stat "/art/stone_mra.png" (snd (snd run))) = Ok (420, 64)
  /\ fst run
     = Ok (false, "Failed to complete the action for unknown reasons"%string)
  /\ fst run
     <> Ok (false, "Compression did not save any memory on disk"%string).
Proof. vm_compute. repeat split. discriminate. Qed.

(** ** binary64: conversions never vanish *)

Lemma digits2_pos_bounds (p : positive) :
  2 ^ (Z.pos (digits2_pos p) - 1) <= Z.pos p < 2 ^ Z.pos (digits2_pos p).
Proof.
  induction p as [p IH | p IH |]; simpl digits2_pos.
  - rewrite Pos2Z.inj_succ.
    replace (Z.succ (Z.pos (digits2_pos p)) - 1)
      with (Z.succ (Z.pos (digits2_pos p) - 1)) by lia.
    rewrite !Z.pow_succ_r by lia. lia.
  - rewrite Pos2Z.inj_succ.
    replace (Z.succ (Z.pos (digits2_pos p)) - 1)
      with (Z.succ (Z.pos (digits2_pos p) - 1)) by lia.
    rewrite !Z.pow_succ_r by lia. lia.
  - simpl. lia.
Qed.

Lemma shr_1_half (mrs : shr_record) :
  0 <= shr_m mrs -> shr_m (shr_1 mrs) = shr_m mrs / 2.
Proof.
  destruct mrs as [m r s]. simpl. intros Hm.
  destruct m as [| p | p]; [done | | lia].
  destruct p as [p | p |]; simpl.
  - rewrite Pos2Z.inj_xI. apply Z.div_unique with 1; lia.
  - rewrite Pos2Z.inj_xO. apply Z.div_unique with 0; lia.
  - reflexivity.
Qed.

Lemma iter_shr_1_div (n : positive) (mrs : shr_record) :
  0 <= shr_m mrs ->
  shr_m (SpecFloat.iter_pos shr_1 n mrs) = shr_m mrs / 2 ^ Z.pos n.
Proof.
  revert mrs. induction n as [n IH | n IH |]; intros mrs Hm; simpl SpecFloat.iter_pos.
  - assert (Hhalf : 0 <= shr_m (shr_1 mrs)).
    { rewrite shr_1_half by done. by apply Z.div_pos. }
    assert (Hpow : 0 < 2 ^ Z.pos n) by (apply Z.pow_pos_nonneg; lia).
    rewrite IH, IH, shr_1_half; try done.
    + rewrite !Z.div_div by lia. f_equal.
      replace (Z.pos n~1) with (1 + Z.pos n + Z.pos n) by lia.
      rewrite !Z.pow_add_r, Z.pow_1_r by lia. lia.
    + rewrite IH by done. apply Z.div_pos; lia.
  - assert (Hpow : 0 < 2 ^ Z.pos n) by (apply Z.pow_pos_nonneg; lia).
    rewrite IH, IH; try done.
    + rewrite Z.div_div by lia. f_equal.
      replace (Z.pos n~0) with (Z.pos n + Z.pos n) by lia.
      rewrite Z.pow_add_r by lia. lia.
    + rewrite IH by done. apply Z.div_pos; lia.
  - by apply shr_1_half.
Qed.

Lemma shr_record_of_loc_m (m : Z) (l : location) :
  shr_m (shr_record_of_loc m l) = m.
Proof. by destruct l as [| []]. Qed.

(** Shifting to the canonical exponent keeps a non-zero mantissa as long as
    the exponent stays above the subnormal range. *)
Lemma shr_fexp_pos (m : positive) (e : Z) (l : location) :
  -1074 < e ->
  0 < shr_m (fst (shr_fexp prec emax (Z.pos m) e l))
  /\ e <= snd (shr_fexp prec emax (Z.pos m) e l).
Proof.
  intros He. unfold shr_fexp, shr.
  pose proof (digits2_pos_bounds m) as [Hlo _].
  set (d := Z.pos (digits2_pos m)) in *.
  assert (Hshift : fexp prec emax (Zdigits2 (Z.pos m) + e) - e <= d - 1).
  { unfold fexp, SpecFloat.emin, prec, emax. simpl Zdigits2. fold d. lia. }
  destruct (fexp prec emax (Zdigits2 (Z.pos m) + e) - e) as [| n | n] eqn:Hn;
    simpl; rewrite ?shr_record_of_loc_m; try lia.
  rewrite iter_shr_1_div by (rewrite shr_record_of_loc_m; lia).
  rewrite shr_record_of_loc_m. split; [| lia].
  apply Z.div_str_pos. split; [apply Z.pow_pos_nonneg; lia |].
  transitivity (2 ^ (d - 1)); [| done].
  apply Z.pow_le_mono_r; lia.
Qed.

Lemma binary_round_aux_nonzero (s : bool) (m : positive) (e : Z) (l : location) :
  -1074 < e ->
  is_zero (binary_round_aux prec emax s (Z.pos m) e l) = false.
Proof.
  intros He. unfold binary_round_aux.
  destruct (shr_fexp_pos m e l He) as [Hm1 He1].
  destruct (shr_fexp prec emax (Z.pos m) e l) as [mrs1 e1]. simpl in Hm1, He1.
  assert (Hr : 0 < round_nearest_even (shr_m mrs1) (loc_of_shr_record mrs1)).
  { unfold round_nearest_even.
    destruct (loc_of_shr_record mrs1) as [| []]; try lia.
    destruct (Z.even (shr_m mrs1)); lia. }
  destruct (round_nearest_even (shr_m mrs1) (loc_of_shr_record mrs1))
    as [| r | r]; try lia.
  destruct (shr_fexp_pos r e1 loc_Exact ltac:(lia)) as [Hm2 _].
  destruct (shr_fexp prec emax (Z.pos r) e1 loc_Exact) as [mrs2 e2].
  simpl in Hm2. destruct (shr_m mrs2); try lia.
  by destruct (e2 <=? emax - prec).
Qed.

(** [float(n)] of a positive integer is not zero. *)
Lemma of_int_nonzero (n : Z) : 0 < n -> is_zero (of_int n) = false.
Proof.
  intros Hn. destruct n as [| p | p]; try lia.
  unfold of_int, binary_normalize, binary_round, shl_align.
  pose proof (digits2_pos_bounds p) as _.
  assert (Hexp : -1074 < fexp prec emax (Z.pos (digits2_pos p) + 0)).
  { unfold fexp, SpecFloat.emin, prec, emax. lia. }
  destruct (fexp prec emax (Z.pos (digits2_pos p) + 0) - 0) eqn:Hd;
    apply binary_round_aux_nonzero; lia.
Qed.

(** ["{0:.0f}"] rounds to a nearest integer: twice the distance between
    [m * 2^e] and the figure is at most one. *)
Lemma round_half_even_nearest (m : positive) (e : Z) :
  e < 0 ->
  Z.abs (2 * Z.pos m - 2 * round_half_even m e * 2 ^ (- e)) <= 2 ^ (- e).
Proof.
  intros He. unfold round_half_even.
  destruct (Z.leb_spec 0 e) as [? | _]; [lia |].
  assert (Hd : 0 < 2 ^ (- e)) by (apply Z.pow_pos_nonneg; lia).
  pose proof (Z.div_mod (Z.pos m) (2 ^ (- e)) ltac:(lia)) as Hdm.
  pose proof (Z.mod_pos_bound (Z.pos m) (2 ^ (- e)) Hd) as Hr.
  set (d := 2 ^ (- e)) in *. set (q := Z.pos m / d) in *.
  set (r := Z.pos m mod d) in *.
  destruct (Z.compare_spec (2 * r) d) as [Heq | Hlt | Hgt].
  - destruct (Z.even q); nia.
  - nia.
  - nia.
Qed.

(** The figure reads [0] exactly for a positive zero and for a positive
    value that rounds to zero. *)
Lemma format_0f_zero (x : float) :
  format_0f x = "0"%string
  <-> x = S754_zero false
      \/ exists m e, x = S754_finite false m e /\ round_half_even m e = 0.
Proof.
  destruct x as [[] | [] | | [] m e]; simpl; split;
    try (intros [? | (? & ? & ? & ?)]; discriminate); try discriminate; auto.
  - intros Hfig. right. exists m, e. split; [done |].
    rewrite append_nil in Hfig. unfold str_int in Hfig.
    by apply (pretty_Z_inj (round_half_even m e) 0).
  - intros [? | (m' & e' & [= <- <-] & Hround)]; [discriminate |].
    rewrite append_nil, Hround. reflexivity.
Qed.

(** *** Claim C8 *)

Lemma count_bad_pixels_from (data : list Z) (acc : Z) :
  acc <= fold_left (fun bad pixel =>
                      if (0 <? pixel) && (pixel <? 255) then bad + 1 else bad)
                   data acc
      <= acc + Z.of_nat (length data).
Proof.
  revert acc. induction data as [| p data IH]; intros acc; simpl; [lia |].
  destruct ((0 <? p) && (p <? 255)).
  - specialize (IH (acc + 1)). lia.
  - specialize (IH acc). lia.
Qed.

Lemma count_bad_pixels_bounds (data : list Z) :
  0 <= count_bad_pixels data <= Z.of_nat (length data).
Proof. apply (count_bad_pixels_from data 0). Qed.

Lemma perc_str_ok (bad_pixels total : Z) :
  0 < total -> perc_str bad_pixels total = Ok (metal_figure bad_pixels total).
Proof.
  intros Htotal. unfold perc_str, div, metal_figure.
  by rewrite (of_int_nonzero total Htotal).
Qed.

(** C8 (as the code has it).  On a file whose name ends in [_mra.png],
    whatever the case of its letters, and whose image has a red channel:
    with no red pixel strictly between 0 and 255 the check passes; with
    [bad_pixels > 0] of them it fails, and the percentage in the message is
    [bad_pixels / total * 100], computed in binary64 and rounded to the
    nearest integer by ["{0:.0f}"].  "Less than" is put in front exactly
    when that rounded figure reads [0]. *)
Theorem C8_metal_report (P : Platform) (o : Image_Object) (w : World)
    (img : Image) (red : list Z) :
  endswith (lower (filename o)) "_mra.png" = true ->
  loaded P o w img ->
  split_red img = Ok (Some red) ->
  let bad_pixels := count_bad_pixels red in
  let total := Z.of_nat (length red) in
  let percentage := mul (SFdiv prec emax (of_int bad_pixels) (of_int total))
                        (of_int 100) in
  let run := fst (Action_Verify_PBR_Values_execute P (o, w)) in
  (bad_pixels = 0 -> run = Ok (true, "Passed all PBR validation tests"%string))
  /\ (0 < bad_pixels ->
      run = Ok (false,
                ((if String.eqb (format_0f percentage) "0"
                  then "Less than 0" else format_0f percentage)
                 ++ "% of the pixels in the red channel are not valid METAL values")%string)).
Proof.
  intros Hname Hloaded Hred bad_pixels total percentage run.
  assert (Hrun : run = metal_verdict red).
  { subst run. unfold Action_Verify_PBR_Values_execute.
    rewrite (bind_ok self _ (o, w) (o, w) o eq_refl).
    rewrite (bind_ok _ _ _ _ _ (open_if_needed P o w img Hloaded)).
    rewrite (bind_ok self _ (opened o img, w) (opened o img, w)
               (opened o img) eq_refl).
    simpl. unfold bind, of_result. rewrite Hred, Hname. reflexivity. }
  rewrite Hrun. unfold metal_verdict. fold bad_pixels. split.
  - intros Hzero. rewrite Hzero. reflexivity.
  - intros Hbad. pose proof (count_bad_pixels_bounds red) as Hbounds.
    fold bad_pixels total in Hbounds.
    destruct (Z.ltb_spec 0 bad_pixels) as [_ | ?]; [| lia].
    fold total. rewrite perc_str_ok by lia.
    destruct (Z.eqb_spec bad_pixels 0) as [? | _]; [lia |].
    unfold metal_figure. fold percentage.
    by destruct (String.eqb (format_0f percentage) "0") eqn:Hfig;
      [apply String.eqb_eq in Hfig; rewrite Hfig |].
Qed.

Lemma C8_metal_report_witness :
  let run := fst (Action_Verify_PBR_Values_execute Sample.platform
                    (Sample.fresh "/art/stone_mra.png", Sample.disk)) in
  (count_bad_pixels [0; 255; 128] = 0 ->
   run = Ok (true, "Passed all PBR validation tests"%string))
  /\ (0 < count_bad_pixels [0; 255; 128] ->
      run = Ok (false,
                "33% of the pixels in the red channel are not valid METAL values"%string)).
Proof.
  apply (C8_metal_report Sample.platform (Sample.fresh "/art/stone_mra.png")
           Sample.disk Sample.picture [0; 255; 128]).
  - reflexivity.
  - simpl. exists Sample.sixty_bytes, 420. split; reflexivity.
  - reflexivity.
Defined.

(** C8 fails on the rounding.  Two bad pixels out of three are 66.67 %:
    the message says 67, the floor is 66.  Three bad pixels out of 400 are
    0.75 %: the floor is 0 and there are bad pixels, yet the message says 1
    and has no "Less than". *)
Lemma C8_counterexample :
  let run := fun img =>
    fst (Action_Verify_PBR_Values_execute Sample.platform
           (Sample.showing "/art/stone_mra.png" img, Sample.disk)) in
  run Sample.two_of_three
  = Ok (false, "67% of the pixels in the red channel are not valid METAL values"%string)
  /\ count_bad_pixels [0; 128; 64] * 100 / 3 = 66
  /\ floor_nonneg (mul (SFdiv prec emax (of_int 2) (of_int 3)) (of_int 100)) = 66
  /\ run Sample.three_of_400
     = Ok (false, "1% of the pixels in the red channel are not valid METAL values"%string)
  /\ 3 * 100 / 400 = 0
  /\ floor_nonneg (mul (SFdiv prec emax (of_int 3) (of_int 400)) (of_int 100)) = 0.
Proof. vm_compute. repeat split. Qed.

(** ** The batch *)

Section Batch.

Variable P : Platform.
Context {C : Type} {Ceq : EqDecision C} {Ccount : Countable C}
        {Act : ImageAction C}.

(** [get_image_files] only reads the world. *)
Lemma get_image_files_world (b : Image_Batch) (directory : string) (w : World) :
  snd (get_image_files P b directory w) = w.
Proof.
  unfold get_image_files, os_path_exists, os_listdir. run_step.
  destruct (bool_decide (is_Some (fs w !! directory))); [| done].
  by destruct (fs w !! directory) as [[? ? | ? ?] |].
Qed.

(** The counting loop of [update_status_incr] over directories without a
    matching file. *)
Lemma count_files_none (b : Image_Batch) (s : BatchState)
    (directories : list string) (file_count : Z) :
  (forall d, d ∈ directories ->
             fst (get_image_files P b d (world s)) = Ok []) ->
  fold_m directories file_count
    (fun file_count directory =>
       files <~ in_env (get_image_files P b directory) ;;
       ret (file_count + Z.of_nat (length files))) s
  = (Ok file_count, s).
Proof.
  revert file_count.
  induction directories as [| d rest IH]; intros file_count Hnone; simpl.
  - reflexivity.
  - assert (Hd : in_env (get_image_files P b d) s = (Ok [], s)).
    { unfold in_env.
      pose proof (Hnone d ltac:(left)) as Hfiles.
      pose proof (get_image_files_world b d (world s)) as Hworld.
      destruct (get_image_files P b d (world s)) as [r w']. simpl in *.
      subst. by destruct s. }
    rewrite (bind_ok _ _ _ _ _ (bind_ok _ _ _ _ _ Hd)).
    replace (file_count + Z.of_nat (length (@nil string))) with file_count
      by (simpl; lia).
    apply IH. intros d' Hd'. apply Hnone. by right.
Qed.

(** *** Claim C1 *)

(** C1, what the code does.  When no configured directory yields a
    matching file, [start] does not complete: the division in
    [update_status_incr] raises [ZeroDivisionError].  The run ends there,
    with the log cleared and nothing else done: no progress value, no
    report written. *)
Theorem C1_no_files_raises (s : BatchState) :
  (forall d, d ∈ dirs (batch s) ->
             fst (get_image_files P (batch s) d (world s)) = Ok []) ->
  start P s = (Raise ZeroDivisionError, cleared s).
Proof.
  intros Hnone. unfold start.
  assert (Hclear : set_log Log_File_clear s = (Ok tt, cleared s)) by done.
  rewrite (bind_ok _ _ _ _ _ Hclear).
  apply bind_raise. unfold update_status_incr.
  rewrite (bind_ok this _ (cleared s) (cleared s) (batch (cleared s)) eq_refl).
  rewrite (bind_ok _ _ _ _ _
             (count_files_none (batch (cleared s)) (cleared s)
                (dirs (batch (cleared s))) 0 Hnone)).
  reflexivity.
Qed.

End Batch.

Lemma C1_no_files_raises_witness :
  @start Sample.platform _ _ _ Sample.actions
    (Sample.state_of ["/missing"] None)
  = (Raise ZeroDivisionError, cleared (Sample.state_of ["/missing"] None)).
Proof.
  apply (C1_no_files_raises Sample.platform
           (Sample.state_of ["/missing"] None)).
  intros d Hd.
  apply elem_of_cons in Hd as [-> | Hd]; [reflexivity |].
  by apply elem_of_nil in Hd.
Defined.

(** ** The invariant of the report *)

Lemma failing_entries_app (entries more : list (string * bool * string)) :
  failing_entries (entries ++ more)
  = failing_entries entries ++ failing_entries more.
Proof. unfold failing_entries. by rewrite List.filter_app, map_app. Qed.

Lemma log_inv_clear (l : Log_File) : log_inv (Log_File_clear l).
Proof. intros name. simpl. by rewrite !lookup_empty. Qed.

Lemma add_file_result_lookup (name action : string) (success : bool)
    (results : string) (l : Log_File) (other : string) :
  file_results (add_file_result name action success results l) !! other
  = if decide (name = other)
    then Some (default [] (file_results l !! name) ++ [(action, success, results)])
    else file_results l !! other.
Proof.
  unfold add_file_result. simpl.
  destruct (file_results l !! name) as [entries |] eqn:Hold; simpl;
    by rewrite lookup_insert.
Qed.

Lemma add_file_fail_lookup (name action results : string) (l : Log_File)
    (other : string) :
  file_fails (add_file_fail name action results l) !! other
  = if decide (name = other)
    then Some (default [] (file_fails l !! name) ++ [(action, results)])
    else file_fails l !! other.
Proof.
  unfold add_file_fail. simpl.
  destruct (file_fails l !! name) as [entries |] eqn:Hold; simpl;
    by rewrite lookup_insert.
Qed.

(** Filing one verdict keeps the invariant. *)
Lemma log_inv_record_verdict (name action : string) (success : bool)
    (results : string) (l : Log_File) :
  log_inv l -> log_inv (record_verdict name action success results l).
Proof.
  intros Hinv other. unfold record_verdict.
  destruct success; cbn [negb].
  - rewrite add_file_result_lookup.
    change (file_fails (add_file_result name action true results l))
      with (file_fails l).
    rewrite (Hinv other). destruct (decide (name = other)) as [<- | _]; [| done].
    simpl. rewrite failing_entries_app. simpl. by rewrite app_nil_r.
  - change (file_results (add_file_fail name action results
                            (add_file_result name action false results l)))
      with (file_results (add_file_result name action false results l)).
    rewrite add_file_fail_lookup, add_file_result_lookup.
    change (file_fails (add_file_result name action false results l))
      with (file_fails l).
    destruct (decide (name = other)) as [<- | _]; [| apply Hinv].
    simpl. rewrite failing_entries_app, (Hinv name). simpl.
    destruct (failing_entries (default [] (file_results l !! name)));
      simpl; [done |].
    by destruct (_ ++ _) eqn:Happ; [apply app_eq_nil in Happ as [_ ?] |].
Qed.

Section Invariant.

Variable P : Platform.
Context {C : Type} {Ceq : EqDecision C} {Ccount : Countable C}
        {Act : ImageAction C}.

Lemma keeps_ret {A} (a : A) : keeps_log_inv (ret a).
Proof. by intros s. Qed.

Lemma keeps_bind {A B} (c : M BatchState A) (k : A -> M BatchState B) :
  keeps_log_inv c -> (forall a, keeps_log_inv (k a)) ->
  keeps_log_inv (bind c k).
Proof.
  intros Hc Hk s Hs. unfold bind. specialize (Hc s Hs).
  destruct (c s) as [[a | e] s']; simpl in *; [by apply Hk | done].
Qed.

Lemma keeps_same_batch {A} (c : M BatchState A) :
  (forall s, batch (snd (c s)) = batch s) -> keeps_log_inv c.
Proof. intros Hc s Hs. by rewrite Hc. Qed.

Lemma keeps_in_env {A} (c : M World A) : keeps_log_inv (in_env c).
Proof.
  apply keeps_same_batch. intros s. unfold in_env.
  by destruct (c (world s)).
Qed.

Lemma keeps_set_this (f : Image_Batch -> Image_Batch) :
  (forall b, log (f b) = log b) -> keeps_log_inv (set_this f).
Proof. intros Hf s Hs. simpl. by rewrite Hf. Qed.

Lemma keeps_set_log (f : Log_File -> Log_File) :
  (forall l, log_inv l -> log_inv (f l)) -> keeps_log_inv (set_log f).
Proof. intros Hf s Hs. simpl. by apply Hf. Qed.

Lemma keeps_when (c : bool) (body : M BatchState unit) :
  keeps_log_inv body -> keeps_log_inv (when c body).
Proof. destruct c; [done | intros _; apply keeps_ret]. Qed.

Lemma keeps_for_each {A} (l : list A) (body : A -> M BatchState unit) :
  (forall x, keeps_log_inv (body x)) -> keeps_log_inv (for_each l body).
Proof.
  intros Hbody. induction l as [| x l IH]; simpl; [apply keeps_ret |].
  apply keeps_bind; [apply Hbody | by intros _].
Qed.

Lemma keeps_fold_m {A B} (l : list A) (acc : B)
    (body : B -> A -> M BatchState B) :
  (forall acc x, keeps_log_inv (body acc x)) ->
  keeps_log_inv (fold_m l acc body).
Proof.
  intros Hbody. revert acc.
  induction l as [| x l IH]; intros acc; simpl; [apply keeps_ret |].
  apply keeps_bind; [apply Hbody | apply IH].
Qed.

End Invariant.

Lemma elem_of_failing_entries (entries : list (string * bool * string))
    (action report : string) :
  (action, report) ∈ failing_entries entries
  <-> (action, false, report) ∈ entries.
Proof.
  unfold failing_entries.
  induction entries as [| [[a passed] r] entries IH]; simpl.
  - split; intros Hin; by apply elem_of_nil in Hin.
  - destruct passed; simpl.
    + rewrite IH, elem_of_cons. split; [auto | intros [[=] | ?]; done].
    + rewrite !elem_of_cons, IH. split.
      * intros [[= -> ->] | ?]; auto.
      * intros [[= -> ->] | ?]; auto.
Qed.

Lemma log_inv_fails_match_results (l : Log_File) :
  log_inv l -> fails_match_results l.
Proof.
  intros Hinv name action report. rewrite (Hinv name). split.
  - intros (entries & Hfails & Hin).
    destruct (file_results l !! name) as [res |] eqn:Hres; simpl in Hfails.
    + exists res. split; [done |]. apply elem_of_failing_entries.
      destruct (failing_entries res); [done |]. by injection Hfails as <-.
    + discriminate.
  - intros (res & Hres & Hin). rewrite Hres. simpl.
    apply elem_of_failing_entries in Hin.
    destruct (failing_entries res) as [| e es] eqn:Hf.
    + by apply elem_of_nil in Hin.
    + by exists (e :: es).
Qed.

Section InvariantOfStart.

Variable P : Platform.
Context {C : Type} {Ceq : EqDecision C} {Ccount : Countable C}
        {Act : ImageAction C}.

Lemma keeps_update_status_value (value : option float) :
  keeps_log_inv (update_status_value value).
Proof.
  unfold update_status_value.
  apply keeps_bind; [by apply keeps_same_batch |]. intros b.
  apply keeps_bind; [by apply keeps_set_this |]. intros _.
  destruct (headless b); [by apply keeps_same_batch |].
  destruct (frame b) as [f |]; [| apply keeps_ret].
  apply keeps_when. by apply keeps_same_batch.
Qed.

Lemma keeps_update_status_msg (msg : string) :
  keeps_log_inv (update_status_msg msg).
Proof.
  unfold update_status_msg.
  apply keeps_bind; [by apply keeps_same_batch |]. intros b.
  destruct (headless b); [by apply keeps_same_batch |].
  destruct (frame b) as [f |]; [| apply keeps_ret].
  apply keeps_when. by apply keeps_same_batch.
Qed.

Lemma keeps_update_status_incr : keeps_log_inv (update_status_incr P).
Proof.
  unfold update_status_incr.
  apply keeps_bind; [by apply keeps_same_batch |]. intros b.
  apply keeps_bind.
  { apply keeps_fold_m. intros acc d.
    apply keeps_bind; [apply keeps_in_env | intros ?; apply keeps_ret]. }
  intros file_count.
  apply keeps_bind; [by apply keeps_same_batch | intros incr].
  by apply keeps_set_this.
Qed.

Lemma keeps_call_execute (sub_class : C) (image_obj : Image_Object) :
  keeps_log_inv (call_execute sub_class image_obj).
Proof.
  apply keeps_same_batch. intros s. unfold call_execute.
  by destruct (execute sub_class (image_obj, world s)) as [[? | ?] [? ?]].
Qed.

(** One turn of the loop over the actions keeps the invariant. *)
Lemma keeps_perform_action (image_obj : Image_Object) (sub_class : C) :
  keeps_log_inv (perform_action P image_obj sub_class).
Proof.
  unfold perform_action.
  apply keeps_bind; [apply keeps_update_status_msg | intros _].
  apply keeps_bind; [apply keeps_call_execute |].
  intros [[success results] o'] s Hs.
  assert (Hlog : log (batch (snd
            ((set_log (add_file_result (filename o') (action_name sub_class)
                         success results) ;;;
              when (negb success)
                (set_log (add_file_fail (filename o') (action_name sub_class)
                            results)) ;;;
              ret o') s)))
          = record_verdict (filename o') (action_name sub_class) success
              results (log (batch s))).
  { unfold record_verdict. by destruct success. }
  rewrite Hlog. by apply log_inv_record_verdict.
Qed.

Lemma keeps_process_file (todo : list C) (image : string) :
  keeps_log_inv (process_file P todo image).
Proof.
  unfold process_file.
  apply keeps_bind; [apply keeps_update_status_value | intros _].
  apply keeps_bind; [apply keeps_in_env | intros image_obj].
  apply keeps_bind; [| intros ?; apply keeps_ret].
  apply keeps_fold_m. intros o c. apply keeps_perform_action.
Qed.

Lemma keeps_process_directory (todo : list C) (directory : string) :
  keeps_log_inv (process_directory P todo directory).
Proof.
  unfold process_directory.
  apply keeps_bind; [by apply keeps_same_batch | intros b].
  apply keeps_bind; [apply keeps_in_env | intros image_files].
  apply keeps_for_each. intros image. apply keeps_process_file.
Qed.

Lemma keeps_Log_File_save (l : Log_File) : keeps_log_inv (Log_File_save P l).
Proof.
  unfold Log_File_save. destruct (save_log l); [| apply keeps_ret].
  apply keeps_bind; [by apply keeps_same_batch | intros xml_str].
  apply keeps_bind; [apply keeps_in_env | intros _].
  by apply keeps_same_batch.
Qed.

(** *** Claim C9 *)

(** C9.  [file_fails] is exactly the failing part of [file_results], file
    by file and entry by entry.  Filing the verdict of one action keeps
    it so, every turn of the loop over the actions keeps it so, and it
    holds in the state [start] ends in, whether the run completes or
    raises. *)
Theorem C9_report_invariant :
  (forall name action success results l,
      log_inv l -> log_inv (record_verdict name action success results l))
  /\ (forall image_obj sub_class s,
        log_inv (log (batch s)) ->
        log_inv (log (batch (snd (perform_action P image_obj sub_class s)))))
  /\ (forall s, log_inv (log (batch (snd (start P s))))
                /\ fails_match_results (log (batch (snd (start P s))))).
Proof.
  split; [apply log_inv_record_verdict |].
  split; [intros o c; apply keeps_perform_action |].
  intros s.
  assert (Hinv : log_inv (log (batch (snd (start P s))))).
  { unfold start.
    assert (Hclear : set_log Log_File_clear s = (Ok tt, cleared s)) by done.
    rewrite (bind_ok _ _ _ _ _ Hclear).
    revert s Hclear. intros s _. generalize (log_inv_clear (log (batch s))).
    change (Log_File_clear (log (batch s))) with (log (batch (cleared s))).
    generalize (cleared s). clear s.
    change (keeps_log_inv
              (update_status_incr P ;;;
               update_status_value (Some (of_int 0)) ;;;
               t <~ in_env time_time ;;
               set_log (fun l => {| log_filename := log_filename l;
                                    file_results := file_results l;
                                    file_fails := file_fails l;
                                    save_log := save_log l;
                                    start_time := t; end_time := end_time l;
                                    completed := completed l |}) ;;;
               b <~ this ;;
               for_each (dirs b)
                 (process_directory P (get_subclass_actions_to_perform b)) ;;;
               t <~ in_env time_time ;;
               set_log (fun l => {| log_filename := log_filename l;
                                    file_results := file_results l;
                                    file_fails := file_fails l;
                                    save_log := save_log l;
                                    start_time := start_time l; end_time := t;
                                    completed := true |}) ;;;
               b <~ this ;;
               Log_File_save P (log b) ;;;
               update_status_value (Some (of_int 100)) ;;;
               update_status_msg "Batch Completed")).
    apply keeps_bind; [apply keeps_update_status_incr | intros _].
    apply keeps_bind; [apply keeps_update_status_value | intros _].
    apply keeps_bind; [apply keeps_in_env | intros t].
    apply keeps_bind; [by apply keeps_set_log | intros _].
    apply keeps_bind; [by apply keeps_same_batch | intros b].
    apply keeps_bind.
    { apply keeps_for_each. intros d. apply keeps_process_directory. }
    intros _.
    apply keeps_bind; [apply keeps_in_env | intros t'].
    apply keeps_bind; [by apply keeps_set_log | intros _].
    apply keeps_bind; [by apply keeps_same_batch | intros b'].
    apply keeps_bind; [apply keeps_Log_File_save | intros _].
    apply keeps_bind; [apply keeps_update_status_value | intros _].
    apply keeps_update_status_msg. }
  split; [exact Hinv | by apply log_inv_fails_match_results].
Qed.

End InvariantOfStart.

Lemma C9_report_invariant_witness :
  let s := snd (@start Sample.platform _ _ _ Sample.actions
                  (Sample.state_of ["/art"]
                     (Some ["compress_png"; "check_power_of_2"]))) in
  log_inv (record_verdict "a.png" "compress_png" false "no"
             (Log_File_clear (Log_File_init "/report.xml")))
  /\ fails_match_results (log (batch s))
  /\ file_fails (log (batch s)) !! "/art/stone_mra.png"
     = Some [("check_power_of_2"%string,
              "Either Width:300 or Height:128 is NOT a proper power of 2"%string)].
Proof.
  pose proof (@C9_report_invariant Sample.platform _ _ _ Sample.actions)
    as (Hstep & _ & Hstart).
  split; [| split].
  - apply Hstep. intros name. simpl. by rewrite !lookup_empty.
  - apply Hstart.
  - vm_compute. reflexivity.
Defined.

(** ** The trace of a run *)

Lemma quiet_app (t1 t2 : list Event) : quiet t1 -> quiet t2 -> quiet (t1 ++ t2).
Proof. apply Forall_app_2. Qed.

Lemma quiet_no_raise (t : list Event) : quiet t -> no_raise t.
Proof.
  intros Hq. eapply Forall_impl; [exact Hq |]. by intros ev [? _].
Qed.

Lemma aborted_app (t1 t2 : list Event) (e : exn) :
  quiet t1 -> aborted t2 e -> aborted (t1 ++ t2) e.
Proof.
  intros H1 [H2 | (t0 & action & file & -> & H0)].
  - left. by apply quiet_app.
  - right. exists (t1 ++ t0), action, file.
    split; [by rewrite app_assoc | by apply quiet_app].
Qed.

Lemma aborted_no_raise (t : list Event) (e : exn) :
  aborted t e -> no_raise t \/ exists t0 action file,
                     t = t0 ++ [EvExecute action file (Raise e)] /\ quiet t0.
Proof. intros [? | ?]; [left; by apply quiet_no_raise | by right]. Qed.

(** A raising call in a trace that is quiet up to its last event is that
    last event. *)
Lemma raised_is_last (t0 before after : list Event) (ev last : Event) :
  is_raised_execute ev = true ->
  quiet t0 ->
  before ++ ev :: after = t0 ++ [last] ->
  before = t0 /\ ev = last /\ after = [].
Proof.
  intros Hev Hq. revert before.
  induction Hq as [| x t0 [Hx _] Hq IH]; intros before Heq.
  - destruct before as [| b before]; simpl in Heq.
    + by injection Heq as -> ->.
    + injection Heq as _ Heq. by destruct before.
  - destruct before as [| b before]; simpl in Heq.
    + injection Heq as -> _. congruence.
    + injection Heq as -> Heq. destruct (IH _ Heq) as (-> & -> & ->). done.
Qed.

Section Trace.

Variable P : Platform.
Context {C : Type} {Ceq : EqDecision C} {Ccount : Countable C}
        {Act : ImageAction C}.

Lemma before_save_silent {A} (c : M BatchState A) :
  (forall s, trace (snd (c s)) = trace s) -> before_save c.
Proof.
  intros Hc s. exists []. rewrite app_nil_r. split; [apply Hc |].
  destruct (fst (c s)); [apply Forall_nil_2 | left; apply Forall_nil_2].
Qed.

Lemma before_save_bind {A B} (c : M BatchState A) (k : A -> M BatchState B) :
  before_save c -> (forall a, before_save (k a)) -> before_save (bind c k).
Proof.
  intros Hc Hk s. unfold bind. destruct (Hc s) as (t1 & Ht1 & Hr1).
  destruct (c s) as [[a | e] s1]; simpl in *.
  - destruct (Hk a s1) as (t2 & Ht2 & Hr2). exists (t1 ++ t2).
    rewrite Ht2, Ht1, app_assoc. split; [done |].
    destruct (fst (k a s1)); [by apply quiet_app | by apply aborted_app].
  - by exists t1.
Qed.

Lemma to_the_end_bind {A B} (c : M BatchState A) (k : A -> M BatchState B) :
  before_save c -> (forall a, to_the_end (k a)) -> to_the_end (bind c k).
Proof.
  intros Hc Hk s. unfold bind. destruct (Hc s) as (t1 & Ht1 & Hr1).
  destruct (c s) as [[a | e] s1]; simpl in *.
  - destruct (Hk a s1) as (t2 & Ht2 & Hr2). exists (t1 ++ t2).
    rewrite Ht2, Ht1, app_assoc. split; [done |].
    destruct (fst (k a s1)).
    + apply Forall_app_2; [by apply quiet_no_raise | done].
    + by apply aborted_app.
  - by exists t1.
Qed.

Lemma before_save_ret {A} (a : A) : before_save (ret a).
Proof. by apply before_save_silent. Qed.

Lemma before_save_in_env {A} (c : M World A) : before_save (in_env c).
Proof.
  apply before_save_silent. intros s. unfold in_env.
  by destruct (c (world s)).
Qed.

Lemma before_save_emit (ev : Event) :
  is_raised_execute ev = false -> is_log_saved ev = false ->
  before_save (emit ev).
Proof.
  intros H1 H2 s. exists [ev]. split; [done |]. simpl.
  by apply Forall_singleton.
Qed.

Lemma before_save_when (c : bool) (body : M BatchState unit) :
  before_save body -> before_save (when c body).
Proof. destruct c; [done | intros _; apply before_save_ret]. Qed.

Lemma before_save_for_each {A} (l : list A) (body : A -> M BatchState unit) :
  (forall x, before_save (body x)) -> before_save (for_each l body).
Proof.
  intros Hbody. induction l as [| x l IH]; simpl; [apply before_save_ret |].
  apply before_save_bind; [apply Hbody | by intros _].
Qed.

Lemma before_save_fold_m {A B} (l : list A) (acc : B)
    (body : B -> A -> M BatchState B) :
  (forall acc x, before_save (body acc x)) ->
  before_save (fold_m l acc body).
Proof.
  intros Hbody. revert acc.
  induction l as [| x l IH]; intros acc; simpl; [apply before_save_ret |].
  apply before_save_bind; [apply Hbody | apply IH].
Qed.

Lemma before_save_update_status_value (value : option float) :
  before_save (update_status_value value).
Proof.
  unfold update_status_value.
  apply before_save_bind; [by apply before_save_silent | intros b].
  apply before_save_bind; [by apply before_save_silent | intros _].
  destruct (headless b); [by apply before_save_emit |].
  destruct (frame b) as [f |]; [| apply before_save_ret].
  apply before_save_when. by apply before_save_emit.
Qed.

Lemma before_save_update_status_msg (msg : string) :
  before_save (update_status_msg msg).
Proof.
  unfold update_status_msg.
  apply before_save_bind; [by apply before_save_silent | intros b].
  destruct (headless b); [by apply before_save_emit |].
  destruct (frame b) as [f |]; [| apply before_save_ret].
  apply before_save_when. by apply before_save_emit.
Qed.

Lemma before_save_update_status_incr : before_save (update_status_incr P).
Proof.
  unfold update_status_incr.
  apply before_save_bind; [by apply before_save_silent | intros b].
  apply before_save_bind.
  { apply before_save_fold_m. intros acc d.
    apply before_save_bind;
      [apply before_save_in_env | intros ?; apply before_save_ret]. }
  intros file_count.
  apply before_save_bind; [by apply before_save_silent | intros incr].
  by apply before_save_silent.
Qed.

(** The call of [execute] is where a run can pick up a raising event. *)
Lemma before_save_call_execute (sub_class : C) (image_obj : Image_Object) :
  before_save (call_execute sub_class image_obj).
Proof.
  intros s. unfold call_execute.
  destruct (execute sub_class (image_obj, world s)) as [[v | e] [o' w']];
    simpl.
  - exists [EvExecute (action_name sub_class) (filename image_obj) (Ok v)].
    split; [done |]. by apply Forall_singleton.
  - exists [EvExecute (action_name sub_class) (filename image_obj) (Raise e)].
    split; [done |]. right.
    exists [], (action_name sub_class), (filename image_obj).
    split; [done | apply Forall_nil_2].
Qed.

Lemma before_save_perform_action (image_obj : Image_Object) (sub_class : C) :
  before_save (perform_action P image_obj sub_class).
Proof.
  unfold perform_action.
  apply before_save_bind; [apply before_save_update_status_msg | intros _].
  apply before_save_bind; [apply before_save_call_execute |].
  intros [[success results] o'].
  apply before_save_bind; [by apply before_save_silent | intros _].
  apply before_save_bind; [| intros _; apply before_save_ret].
  apply before_save_when. by apply before_save_silent.
Qed.

Lemma before_save_process_directory (todo : list C) (directory : string) :
  before_save (process_directory P todo directory).
Proof.
  unfold process_directory.
  apply before_save_bind; [by apply before_save_silent | intros b].
  apply before_save_bind; [apply before_save_in_env | intros image_files].
  apply before_save_for_each. intros image. unfold process_file.
  apply before_save_bind; [apply before_save_update_status_value | intros _].
  apply before_save_bind; [apply before_save_in_env | intros image_obj].
  apply before_save_bind; [| intros ?; apply before_save_ret].
  apply before_save_fold_m. intros o c. apply before_save_perform_action.
Qed.

End Trace.

Section AbortedRun.

Variable P : Platform.
Context {C : Type} {Ceq : EqDecision C} {Ccount : Countable C}
        {Act : ImageAction C}.

Lemma before_save_to_the_end {A} (c : M BatchState A) :
  before_save c -> to_the_end c.
Proof.
  intros Hc s. destruct (Hc s) as (t & Ht & Hr). exists t. split; [done |].
  destruct (fst (c s)); [by apply quiet_no_raise | done].
Qed.

(** The two status updates that close [start] cannot raise. *)
Lemma closing_updates_return (value : option float) (msg : string)
    (s : BatchState) :
  exists s',
    (update_status_value value ;;; update_status_msg msg) s
    = (Ok tt, s').
Proof.
  unfold update_status_value, update_status_msg, this, set_this, emit.
  run_step.
  destruct (headless (batch s)); [by eexists |].
  destruct (frame (batch s)) as [[[] []] |]; by eexists.
Qed.

(** [Log_File.save] raises before it has written anything, or returns. *)
Lemma Log_File_save_run (l : Log_File) (s : BatchState) :
  exists r s' t,
    Log_File_save P l s = (r, s')
    /\ trace s' = trace s ++ t
    /\ no_raise t
    /\ (forall e, r = Raise e -> t = []).
Proof.
  unfold Log_File_save. destruct (save_log l).
  - unfold bind, of_result, in_env, emit, modify.
    destruct (toprettyxml P (root_element l)) as [xml_str | e].
    + destruct (write_text_file (log_filename l) xml_str (world s))
        as [[[] | e] w'].
      * eexists _, _, [EvLogSaved (log_filename l)].
        split; [reflexivity |]. split; [done |].
        split; [by apply Forall_singleton | done].
      * eexists _, _, []. split; [reflexivity |]. simpl.
        rewrite app_nil_r. split; [done |]. split; [apply Forall_nil_2 | done].
    + eexists _, _, []. split; [reflexivity |].
      rewrite app_nil_r. split; [done |]. split; [apply Forall_nil_2 | done].
  - eexists _, _, []. split; [reflexivity |].
    rewrite app_nil_r. split; [done |]. split; [apply Forall_nil_2 | done].
Qed.

(** Saving the report and closing the run: an exception can only come
    from [Log_File.save], before it has written anything. *)
Lemma to_the_end_save (l : Log_File) (value : option float) (msg : string) :
  to_the_end (Log_File_save P l ;;;
              update_status_value value ;;; update_status_msg msg).
Proof.
  intros s.
  assert (Hclose : forall s1 t1,
             trace s1 = trace s ++ t1 -> no_raise t1 ->
             exists t,
               trace (snd ((update_status_value value ;;;
                            update_status_msg msg) s1))
               = trace s ++ t
               /\ match fst ((update_status_value value ;;;
                              update_status_msg msg) s1) with
                  | Ok _ => no_raise t
                  | Raise e => aborted t e
                  end).
  { intros s1 t1 Ht1 Hq1.
    destruct (closing_updates_return value msg s1) as [s' Hs'].
    destruct (before_save_bind _ _
                (before_save_update_status_value value)
                (fun _ => before_save_update_status_msg msg) s1)
      as (t2 & Ht2 & Hr2).
    rewrite Hs' in *. simpl in *. exists (t1 ++ t2).
    rewrite Ht2, Ht1, app_assoc. split; [done |].
    apply Forall_app_2; [done | by apply quiet_no_raise]. }
  destruct (Log_File_save_run l s) as (r & s' & t1 & Hsave & Hs' & Ht1 & Hr).
  destruct r as [[] | e].
  - rewrite (bind_ok _ _ _ _ _ Hsave). by apply (Hclose s' t1).
  - rewrite (bind_raise _ _ _ _ _ Hsave). simpl.
    rewrite (Hr e eq_refl) in Hs'. exists []. split; [done |].
    left. apply Forall_nil_2.
Qed.

Lemma to_the_end_start : to_the_end (start P).
Proof.
  unfold start.
  apply to_the_end_bind; [by apply before_save_silent | intros _].
  apply to_the_end_bind; [apply before_save_update_status_incr | intros _].
  apply to_the_end_bind; [apply before_save_update_status_value | intros _].
  apply to_the_end_bind; [apply before_save_in_env | intros t].
  apply to_the_end_bind; [by apply before_save_silent | intros _].
  apply to_the_end_bind; [by apply before_save_silent | intros b].
  apply to_the_end_bind.
  { apply before_save_for_each. intros d.
    apply before_save_process_directory. }
  intros _.
  apply to_the_end_bind; [apply before_save_in_env | intros t'].
  apply to_the_end_bind; [by apply before_save_silent | intros _].
  apply to_the_end_bind; [by apply before_save_silent | intros b'].
  apply to_the_end_save.
Qed.

(** *** Claim C2 *)

(** C2.  If some [execute] call of a run raises [e], then [start] ends
    with [e]: nothing catches it.  That call is the last thing the run
    does, so no later action or file is processed, and nothing in the
    run writes the report file. *)
Theorem C2_raising_action_aborts (s : BatchState) (action file : string)
    (e : exn) (before after : list Event) :
  trace (snd (start P s))
  = trace s ++ before ++ EvExecute action file (Raise e) :: after ->
  fst (start P s) = Raise e
  /\ after = []
  /\ Forall (fun ev => is_log_saved ev = false)
       (before ++ EvExecute action file (Raise e) :: after)
  /\ no_raise before.
Proof.
  intros Htrace.
  destruct (to_the_end_start s) as (t & Ht & Hr).
  rewrite Ht in Htrace. apply app_inv_head in Htrace. subst t.
  assert (Hnot : ~ no_raise (before ++ EvExecute action file (Raise e) :: after)).
  { intros Hq. apply Forall_app in Hq as [_ Hq].
    by apply Forall_cons in Hq as [Hq _]. }
  destruct (fst (start P s)) as [[] | e']; [done |].
  destruct (aborted_no_raise _ _ Hr) as [? | (t0 & a & f & Heq & Hq0)];
    [done |].
  destruct (raised_is_last t0 before after
              (EvExecute action file (Raise e)) _ eq_refl Hq0 Heq)
    as (-> & [= -> -> ->] & ->).
  split; [done |]. split; [done |]. split.
  - apply Forall_app_2.
    + eapply Forall_impl; [exact Hq0 |]. by intros ev [_ ?].
    + by apply Forall_singleton.
  - by apply quiet_no_raise.
Qed.

End AbortedRun.

Lemma C2_raising_action_aborts_witness :
  let s := {| batch := Sample.batch_of ["/art"] (Some ["verify_pbr_values"]);
              world := Sample.disk; trace := [] |} in
  let run := @start Sample.grey_platform _ _ _
               (Reference_Actions Sample.grey_platform) s in
  fst run = Raise UnboundLocalError
  /\ file_results (log (batch (snd run))) = ∅
  /\ fs (world (snd run)) !! "/report.xml" = None.
Proof.
  intros s run.
  assert (Htrace : trace (snd run)
                   = trace s
                     ++ [EvProgress (of_int 0); EvProgress (of_int 100);
                         EvStatus "Verifying PBR Values on: stone_mra.png"]
                     ++ EvExecute "verify_pbr_values" "/art/stone_mra.png"
                          (Raise UnboundLocalError) :: [])
    by (vm_compute; reflexivity).
  destruct (@C2_raising_action_aborts Sample.grey_platform _ _ _
              (Reference_Actions Sample.grey_platform) s _ _ _ _ _ Htrace)
    as (Hraise & _).
  split; [exact Hraise |]. split; vm_compute; reflexivity.
Defined.

(* ================================================================== *)
(** * Further properties *)

(** ** Image_Object *)

Lemma refresh_is_editable (o : Image_Object) (w : World) (content : string)
    (m : Z) :
  fs w !! filename o = Some (File content m) ->
  _update_is_editable (o, w) = (Ok tt, (with_editable (writable m) o, w)).
Proof.
  intros Hfile. unfold _update_is_editable, os_stat. run_step.
  rewrite Hfile. simpl. unfold writable, with_editable.
  destruct (Z.land m S_IWRITE =? 0); reflexivity.
Qed.

(** X1.  [save] does not touch the world when the file has no write bit or the
    image was never opened: it only refreshes [is_editable]. *)
Theorem save_skips_without_write_bit_or_image (P : Platform)
    (o : Image_Object) (w : World) (content : string) (m : Z)
    (name : option string) (optimize : bool) :
  fs w !! filename o = Some (File content m) ->
  writable m = false \/ is_open o = false ->
  Image_Object_save P name optimize (o, w)
  = (Ok tt, (with_editable (writable m) o, w)).
Proof.
  intros Hfile Hskip. unfold Image_Object_save.
  rewrite (bind_ok _ _ _ _ _ (refresh_is_editable o w content m Hfile)).
  rewrite (bind_ok self _ (with_editable (writable m) o, w)
             (with_editable (writable m) o, w)
             (with_editable (writable m) o) eq_refl).
  simpl. destruct Hskip as [-> | ->]; [done |]. by rewrite andb_false_r.
Qed.

Lemma save_skips_without_write_bit_or_image_witness :
  let o := Sample.showing "/art/stone_mra.png" Sample.picture in
  let w := set_fs (insert "/art/stone_mra.png" (File Sample.sixty_bytes 292))
             Sample.disk in
  Image_Object_save Sample.platform None true (o, w) = (Ok tt, (o, w)).
Proof.
  apply (save_skips_without_write_bit_or_image Sample.platform
           (Sample.showing "/art/stone_mra.png" Sample.picture)
           (set_fs (insert "/art/stone_mra.png" (File Sample.sixty_bytes 292))
              Sample.disk)
           Sample.sixty_bytes 292 None true).
  - vm_compute. reflexivity.
  - left. reflexivity.
Defined.

(** X2.  [checkout] and [submit] return whether the file has the write bit and
    leave the file system alone; when the file is gone they raise [OSError]
    after [is_editable] was reset to [False]. *)
Theorem checkout_reports_write_bit (o : Image_Object) (w : World) :
  Image_Object_submit (o, w) = Image_Object_checkout (o, w)
  /\ (forall content m,
        fs w !! filename o = Some (File content m) ->
        Image_Object_checkout (o, w)
        = (Ok (writable m), (with_editable (writable m) o, w)))
  /\ (fs w !! filename o = None ->
      Image_Object_checkout (o, w)
      = (Raise OSError, (with_editable false o, w))).
Proof.
  split; [reflexivity |]. split.
  - intros content m Hfile. unfold Image_Object_checkout.
    rewrite (bind_ok _ _ _ _ _ (refresh_is_editable o w content m Hfile)).
    reflexivity.
  - intros Hgone. unfold Image_Object_checkout, _update_is_editable, os_stat.
    run_step. by rewrite Hgone.
Qed.

Lemma checkout_reports_write_bit_witness :
  Image_Object_checkout (Sample.fresh "/art/notes.txt", Sample.disk)
  = (Ok true, (with_editable true (Sample.fresh "/art/notes.txt"), Sample.disk))
  /\ Image_Object_checkout (Sample.showing "/gone.png" Sample.picture, Sample.disk)
     = (Raise OSError,
        (with_editable false (Sample.showing "/gone.png" Sample.picture),
         Sample.disk)).
Proof.
  destruct (checkout_reports_write_bit (Sample.fresh "/art/notes.txt") Sample.disk)
    as (_ & Hfile & _).
  destruct (checkout_reports_write_bit
              (Sample.showing "/gone.png" Sample.picture) Sample.disk)
    as (_ & _ & Hgone).
  split.
  - apply (Hfile "todo"%string 420). reflexivity.
  - apply Hgone. reflexivity.
Defined.

(** ** Action_Compress_PNG *)

Lemma stat_of_file (o' : Image_Object) (w : World) (name content : string)
    (m : Z) :
  fs w !! name = Some (File content m) ->
  in_world (os_stat name) (o', w)
  = (Ok (m, Z.of_nat (String.length content)), (o', w)).
Proof. intros Hfile. unfold os_stat. run_step. by rewrite Hfile. Qed.

(** X3.  A PNG without the write bit is never rewritten: the action opens it,
    reports that nothing was saved and leaves the file system as it was,
    whatever the encoder would have produced. *)
Theorem compress_leaves_read_only_png (P : Platform) (o : Image_Object)
    (w : World) (content : string) (m : Z) (img : Image) :
  endswith (lower (filename o)) ".png" = true ->
  fs w !! filename o = Some (File content m) ->
  loaded P o w img ->
  writable m = false ->
  Action_Compress_PNG_execute P (o, w)
  = (Ok (false, "Compression did not save any memory on disk"%string),
     (with_editable false (opened o img), w)).
Proof.
  intros Hext Hfile Hloaded Hro. unfold Action_Compress_PNG_execute.
  rewrite (bind_ok self _ (o, w) (o, w) o eq_refl), Hext.
  rewrite (bind_ok _ _ _ _ _ (stat_of_file o w _ content m Hfile)).
  rewrite (bind_ok _ _ _ _ _ (open_if_needed P o w img Hloaded)).
  assert (Hsave : Image_Object_save P None true (opened o img, w)
                  = (Ok tt, (with_editable false (opened o img), w))).
  { unfold Image_Object_save.
    rewrite (bind_ok _ _ _ _ _
               (refresh_is_editable (opened o img) w content m Hfile)).
    by rewrite Hro. }
  rewrite (bind_ok _ _ _ _ _ Hsave).
  rewrite (bind_ok _ _ _ _ _
             (stat_of_file (with_editable false (opened o img)) w _ content m
                Hfile)).
  unfold of_result. simpl. rewrite compression_verdict_no_saving by lia.
  by rewrite Z.eqb_refl.
Qed.

Lemma compress_leaves_read_only_png_witness :
  let w := set_fs (insert "/art/stone_mra.png" (File Sample.sixty_bytes 292))
             Sample.disk in
  Action_Compress_PNG_execute Sample.platform
    (Sample.fresh "/art/stone_mra.png", w)
  = (Ok (false, "Compression did not save any memory on disk"%string),
     (with_editable false
        (opened (Sample.fresh "/art/stone_mra.png") Sample.picture), w)).
Proof.
  apply (compress_leaves_read_only_png Sample.platform
           (Sample.fresh "/art/stone_mra.png")
           (set_fs (insert "/art/stone_mra.png" (File Sample.sixty_bytes 292))
              Sample.disk)
           Sample.sixty_bytes 292 Sample.picture).
  - reflexivity.
  - vm_compute. reflexivity.
  - simpl. exists Sample.sixty_bytes, 292. split; vm_compute; reflexivity.
  - reflexivity.
Defined.

(** X4.  A PNG that cannot be read stops the action with the error of the
    library, before anything is written: [OSError] when the file is gone,
    the decoder's exception when the bytes are not an image. *)
Theorem compress_raises_on_unreadable_png (P : Platform) (o : Image_Object)
    (w : World) :
  endswith (lower (filename o)) ".png" = true ->
  (fs w !! filename o = None ->
   Action_Compress_PNG_execute P (o, w) = (Raise OSError, (o, w)))
  /\ (forall content m e,
        fs w !! filename o = Some (File content m) ->
        is_open o = false ->
        Image_open P content = Raise e ->
        Action_Compress_PNG_execute P (o, w) = (Raise e, (o, w))).
Proof.
  intros Hext. split.
  - intros Hgone. unfold Action_Compress_PNG_execute.
    rewrite (bind_ok self _ (o, w) (o, w) o eq_refl), Hext.
    apply bind_raise. unfold os_stat. run_step. by rewrite Hgone.
  - intros content m e Hfile Hclosed Hdecode.
    unfold Action_Compress_PNG_execute.
    rewrite (bind_ok self _ (o, w) (o, w) o eq_refl), Hext.
    rewrite (bind_ok _ _ _ _ _ (stat_of_file o w _ content m Hfile)).
    apply bind_raise. rewrite Hclosed. simpl.
    unfold Image_Object_open. run_step. by rewrite Hfile, Hdecode.
Qed.

Lemma compress_raises_on_unreadable_png_witness :
  Action_Compress_PNG_execute Unreadable.platform
    (Sample.fresh "/art/gone.png", Sample.disk)
  = (Raise OSError, (Sample.fresh "/art/gone.png", Sample.disk))
  /\ Action_Compress_PNG_execute Unreadable.platform
       (Sample.fresh "/art/stone_mra.png", Sample.disk)
     = (Raise IOError, (Sample.fresh "/art/stone_mra.png", Sample.disk)).
Proof.
  split.
  - apply (compress_raises_on_unreadable_png Unreadable.platform
             (Sample.fresh "/art/gone.png") Sample.disk); reflexivity.
  - apply (compress_raises_on_unreadable_png Unreadable.platform
             (Sample.fresh "/art/stone_mra.png") Sample.disk eq_refl)
      with (content := Sample.sixty_bytes) (m := 420); reflexivity.
Defined.

Lemma write_bytes_twice (name content : string) (w : World) :
  write_bytes name content (write_bytes name content w)
  = write_bytes name content w.
Proof.
  unfold write_bytes, set_fs. simpl. rewrite lookup_insert_eq.
  rewrite insert_insert_eq. reflexivity.
Qed.

(** X5.  Compressing a file a second time never reports a saving: whatever the
    first run did, the second one finds the size unchanged, answers that
    nothing was saved and leaves the object and the file system as the
    first run left them. *)
Theorem compress_twice_saves_nothing (P : Platform) (o : Image_Object)
    (w : World) (content : string) (m : Z) (img : Image) (written : string) :
  endswith (lower (filename o)) ".png" = true ->
  fs w !! filename o = Some (File content m) ->
  loaded P o w img ->
  Image_save P img (filename o) true = (written, None) ->
  let first := Action_Compress_PNG_execute P (o, w) in
  Action_Compress_PNG_execute P (snd first)
  = (Ok (false, "Compression did not save any memory on disk"%string),
     snd first).
Proof.
  intros Hext Hfile Hloaded Hsave first.
  destruct (compress_png_run P o w content m img written
              Hext Hfile Hloaded Hsave) as [Hfirst Hnew].
  subst first. rewrite Hfirst. simpl snd.
  set (o1 := with_editable (writable m) (opened o img)) in *.
  set (w1 := if writable m then write_bytes (filename o) written w else w) in *.
  set (new_content := if writable m then written else content) in *.
  destruct (compress_png_run P o1 w1 new_content m img written
              Hext Hnew eq_refl Hsave) as [Hsecond _].
  rewrite Hsecond.
  assert (Hsame : (if writable m then written else new_content) = new_content).
  { subst new_content. by destruct (writable m). }
  rewrite Hsame, compression_verdict_no_saving, Z.eqb_refl by lia.
  f_equal. f_equal. subst w1. simpl.
  destruct (writable m); [apply write_bytes_twice | done].
Qed.

Lemma compress_twice_saves_nothing_witness :
  let first := Action_Compress_PNG_execute Sample.platform
                 (Sample.fresh "/art/stone_mra.png", Sample.disk) in
  fst first = Ok (true, "Compression saved .5 kbs on disk"%string)
  /\ Action_Compress_PNG_execute Sample.platform (snd first)
     = (Ok (false, "Compression did not save any memory on disk"%string),
        snd first).
Proof.
  split; [vm_compute; reflexivity |].
  apply (compress_twice_saves_nothing Sample.platform
           (Sample.fresh "/art/stone_mra.png") Sample.disk
           Sample.sixty_bytes 420 Sample.picture "12345678").
  - reflexivity.
  - reflexivity.
  - simpl. exists Sample.sixty_bytes, 420. split; reflexivity.
  - reflexivity.
Defined.

(** X6.  From one kilobyte on the figure of the report is sound: when the
    hundredths of a kilobyte [cents] are at least 100, the message shows
    their quotient by 100, a point and their last two digits. *)
Theorem compression_figure_from_one_kilobyte (old new cents : Z) :
  new < old ->
  to_int (mul (SFdiv prec emax (of_int (old - new)) (of_int 1024)) (of_int 100))
  = Ok cents ->
  100 <= cents ->
  compression_verdict old new
  = Ok (true, ("Compression saved " ++ str_int (cents / 100) ++ "."
               ++ two_digits cents ++ " kbs on disk")%string).
Proof.
  intros Hsaving Hcents Hbig. unfold compression_verdict.
  destruct (Z.ltb_spec 0 (old - new)) as [_ | ?]; [| lia].
  change (div (of_int (old - new)) (of_int 1024))
    with (Ok (A := float) (SFdiv prec emax (of_int (old - new)) (of_int 1024))).
  cbv beta iota. rewrite Hcents, (kb_str_hundreds cents Hbig).
  by rewrite !string_app_assoc.
Qed.

Lemma compression_figure_from_one_kilobyte_witness :
  compression_verdict 3000 1000
  = Ok (true, "Compression saved 1.95 kbs on disk"%string).
Proof.
  apply (compression_figure_from_one_kilobyte 3000 1000 195).
  - lia.
  - vm_compute. reflexivity.
  - lia.
Defined.

(** ** Action_Check_Power_Of_2 *)

Lemma check_power_of_2_run (P : Platform) (o : Image_Object) (w : World)
    (img : Image) :
  loaded P o w img ->
  Action_Check_Power_Of_2_execute P (o, w)
  = (Ok (power_of_2_verdict (fst (size img)) (snd (size img))),
     (opened o img, w)).
Proof.
  intros Hloaded. unfold Action_Check_Power_Of_2_execute.
  rewrite (bind_ok self _ (o, w) (o, w) o eq_refl).
  rewrite (bind_ok _ _ _ _ _ (open_if_needed P o w img Hloaded)).
  rewrite (bind_ok self _ (opened o img, w) (opened o img, w)
             (opened o img) eq_refl).
  simpl. by destruct (size img).
Qed.

(** X7.  The bit test is sound and complete: the check succeeds exactly when the
    width and the height are both of the form [2^k] with [k >= 0] (so 1
    passes, 0 and negative values fail), and then the message names both
    dimensions. *)
Theorem power_of_2_check_is_exact (P : Platform) (o : Image_Object)
    (w : World) (img : Image) :
  loaded P o w img ->
  exists success msg,
    fst (Action_Check_Power_Of_2_execute P (o, w)) = Ok (success, msg)
    /\ (success = true
        <-> (exists j, 0 <= j /\ fst (size img) = 2 ^ j)
            /\ (exists k, 0 <= k /\ snd (size img) = 2 ^ k))
    /\ (success = true ->
        msg = ("Width:" ++ str_int (fst (size img)) ++ " and Height:"
               ++ str_int (snd (size img))
               ++ " are both a proper power of 2")%string).
Proof.
  intros Hloaded. rewrite (check_power_of_2_run P o w img Hloaded).
  unfold power_of_2_verdict.
  pose proof (is_pow2_spec (fst (size img))) as Hw.
  pose proof (is_pow2_spec (snd (size img))) as Hh.
  destruct (is_pow2 (fst (size img))), (is_pow2 (snd (size img))); simpl;
    eexists _, _; (split; [reflexivity |]);
    rewrite <- Hw, <- Hh; split; intuition congruence.
Qed.

Lemma power_of_2_check_is_exact_witness :
  exists success msg,
    fst (Action_Check_Power_Of_2_execute Sample.platform
           (Sample.holding "/art/stone_mra.png" 256 1, Sample.disk))
    = Ok (success, msg)
    /\ (success = true
        <-> (exists j, 0 <= j /\ 256 = 2 ^ j) /\ (exists k, 0 <= k /\ 1 = 2 ^ k))
    /\ (success = true ->
        msg = "Width:256 and Height:1 are both a proper power of 2"%string).
Proof.
  apply (power_of_2_check_is_exact Sample.platform
           (Sample.holding "/art/stone_mra.png" 256 1) Sample.disk
           {| mode := "RGB"; size := (256, 1); bands := [[0]; [0]; [0]] |}).
  reflexivity.
Defined.

(** ** Action_Verify_PBR_Values *)

Lemma verify_pbr_run (P : Platform) (o : Image_Object) (w : World)
    (img : Image) (red : option (list Z)) :
  loaded P o w img ->
  split_red img = Ok red ->
  Action_Verify_PBR_Values_execute P (o, w)
  = (if endswith (lower (filename o)) "_mra.png" then
       match red with
       | None => Raise UnboundLocalError
       | Some data => metal_verdict data
       end
     else Ok (true, "Passed all PBR validation tests"%string),
     (opened o img, w)).
Proof.
  intros Hloaded Hred. unfold Action_Verify_PBR_Values_execute.
  rewrite (bind_ok self _ (o, w) (o, w) o eq_refl).
  rewrite (bind_ok _ _ _ _ _ (open_if_needed P o w img Hloaded)).
  rewrite (bind_ok self _ (opened o img, w) (opened o img, w)
             (opened o img) eq_refl).
  simpl. unfold bind, of_result. rewrite Hred.
  destruct (endswith (lower (filename o)) "_mra.png"); [| done].
  by destruct red.
Qed.

(** X8.  A file whose name does not end in [_mra.png] passes the validation
    whatever its pixels are: the only check the action makes is the metal
    check on that suffix. *)
Theorem pbr_passes_every_other_name (P : Platform) (o : Image_Object)
    (w : World) (img : Image) (red : option (list Z)) :
  endswith (lower (filename o)) "_mra.png" = false ->
  loaded P o w img ->
  split_red img = Ok red ->
  Action_Verify_PBR_Values_execute P (o, w)
  = (Ok (true, "Passed all PBR validation tests"%string), (opened o img, w)).
Proof.
  intros Hname Hloaded Hred.
  by rewrite (verify_pbr_run P o w img red Hloaded Hred), Hname.
Qed.

Lemma pbr_passes_every_other_name_witness :
  Action_Verify_PBR_Values_execute Sample.platform
    (Sample.showing "/art/stone_albedo.png" Sample.two_of_three, Sample.disk)
  = (Ok (true, "Passed all PBR validation tests"%string),
     (Sample.showing "/art/stone_albedo.png" Sample.two_of_three, Sample.disk)).
Proof.
  apply (pbr_passes_every_other_name Sample.platform
           (Sample.showing "/art/stone_albedo.png" Sample.two_of_three)
           Sample.disk Sample.two_of_three (Some [0; 128; 64]));
    reflexivity.
Defined.

(** X9.  On a [_mra.png] file whose image is neither RGB nor RGBA the action
    does not return: [red] was never bound and the metal check raises
    [UnboundLocalError], after the image was opened. *)
Theorem pbr_raises_without_red_channel (P : Platform) (o : Image_Object)
    (w : World) (img : Image) :
  endswith (lower (filename o)) "_mra.png" = true ->
  loaded P o w img ->
  String.eqb (mode img) "RGB" = false ->
  String.eqb (mode img) "RGBA" = false ->
  Action_Verify_PBR_Values_execute P (o, w)
  = (Raise UnboundLocalError, (opened o img, w)).
Proof.
  intros Hname Hloaded Hrgb Hrgba.
  assert (Hred : split_red img = Ok None).
  { unfold split_red. by rewrite Hrgb, Hrgba. }
  by rewrite (verify_pbr_run P o w img None Hloaded Hred), Hname.
Qed.

Lemma pbr_raises_without_red_channel_witness :
  Action_Verify_PBR_Values_execute Sample.grey_platform
    (Sample.fresh "/art/stone_mra.png", Sample.disk)
  = (Raise UnboundLocalError,
     (opened (Sample.fresh "/art/stone_mra.png") Sample.grey, Sample.disk)).
Proof.
  apply (pbr_raises_without_red_channel Sample.grey_platform
           (Sample.fresh "/art/stone_mra.png") Sample.disk Sample.grey).
  - reflexivity.
  - simpl. exists Sample.sixty_bytes, 420. split; reflexivity.
  - reflexivity.
  - reflexivity.
Defined.

Lemma count_bad_pixels_none (data : list Z) (acc : Z) :
  fold_left (fun bad pixel =>
               if (0 <? pixel) && (pixel <? 255) then bad + 1 else bad)
            data acc = acc
  <-> Forall metal_pixel data.
Proof.
  revert acc. induction data as [| p data IH]; intros acc; simpl.
  - split; [intros _; apply Forall_nil_2 | done].
  - rewrite Forall_cons. unfold metal_pixel at 1.
    destruct (Z.ltb_spec 0 p), (Z.ltb_spec p 255); simpl;
      rewrite ?IH; try (split; [intros ?; split; [lia | done] | by intros [_ ?]]).
    pose proof (count_bad_pixels_from data (acc + 1)). split; [lia |].
    intros [? _]. lia.
Qed.

(** X10.  On a [_mra.png] file with a red channel the verdict is decided by the
    pixels alone: the action returns, and it passes exactly when every red
    pixel is 0 or 255 (no value strictly in between). *)
Theorem pbr_passes_iff_red_is_binary (P : Platform) (o : Image_Object)
    (w : World) (img : Image) (red : list Z) :
  endswith (lower (filename o)) "_mra.png" = true ->
  loaded P o w img ->
  split_red img = Ok (Some red) ->
  exists success msg,
    fst (Action_Verify_PBR_Values_execute P (o, w)) = Ok (success, msg)
    /\ (success = true <-> Forall metal_pixel red).
Proof.
  intros Hname Hloaded Hred.
  rewrite (verify_pbr_run P o w img (Some red) Hloaded Hred), Hname. simpl.
  unfold metal_verdict.
  pose proof (count_bad_pixels_none red 0) as Hnone.
  pose proof (count_bad_pixels_bounds red) as Hbounds.
  fold (count_bad_pixels red) in Hnone.
  destruct (Z.ltb_spec 0 (count_bad_pixels red)) as [Hbad | Hzero].
  - rewrite perc_str_ok by lia.
    destruct (Z.eqb_spec (count_bad_pixels red) 0) as [? | _]; [lia |].
    eexists _, _. split; [reflexivity |]. rewrite <- Hnone. split; [done | lia].
  - assert (Hcount : count_bad_pixels red = 0) by lia.
    rewrite Hcount. simpl. eexists _, _. split; [reflexivity |].
    by rewrite <- Hnone.
Qed.

Lemma pbr_passes_iff_red_is_binary_witness :
  exists success msg,
    fst (Action_Verify_PBR_Values_execute Sample.platform
           (Sample.fresh "/art/stone_mra.png", Sample.disk))
    = Ok (success, msg)
    /\ (success = true <-> Forall metal_pixel [0; 255; 128]).
Proof.
  apply (pbr_passes_iff_red_is_binary Sample.platform
           (Sample.fresh "/art/stone_mra.png") Sample.disk Sample.picture
           [0; 255; 128]).
  - reflexivity.
  - simpl. exists Sample.sixty_bytes, 420. split; reflexivity.
  - reflexivity.
Defined.

(** ** Selection of the actions, continued *)

Section MoreSelection.

Context {C : Type} {Ceq : EqDecision C} {Ccount : Countable C}
        {Act : ImageAction C}.

(** X11.  Without a list of identifiers the selection is the set of registered
    classes whose [can_execute] is true at that moment, each class once. *)
Theorem selection_without_list (b : Image_Batch) :
  actions b = None ->
  (forall c, c ∈ get_subclass_actions_to_perform b
             <-> c ∈ subclasses /\ can_execute c = true)
  /\ NoDup (get_subclass_actions_to_perform b).
Proof.
  intros Hnone. split; [| apply NoDup_actions_to_perform].
  intros c. rewrite elem_of_actions_to_perform.
  unfold selected, actions_given. by rewrite Hnone.
Qed.

Lemma str_in_same_elements (x : string) (l l' : list string) :
  (forall y, y ∈ l <-> y ∈ l') -> str_in x l = str_in x l'.
Proof.
  intros Hsame.
  destruct (str_in x l) eqn:Hl, (str_in x l') eqn:Hl'; try done.
  - apply str_in_elem, Hsame, str_in_elem in Hl. congruence.
  - apply str_in_elem, Hsame, str_in_elem in Hl'. congruence.
Qed.

(** X12.  The list of identifiers counts as a set: writing the identifiers in
    another order, or some of them several times, selects the same
    actions. *)
Theorem selection_ignores_order_and_repeats (b : Image_Batch)
    (ids ids' : list string) :
  actions b = Some ids ->
  (forall x, x ∈ ids <-> x ∈ ids') ->
  get_subclass_actions_to_perform (with_actions (Some ids') b)
  = get_subclass_actions_to_perform b.
Proof.
  intros Hids Hsame. unfold get_subclass_actions_to_perform, collect_actions.
  do 2 f_equal.
  assert (Hstep : forall acc k,
             consider_action (with_actions (Some ids') b) acc k
             = consider_action b acc k).
  { intros acc k. unfold consider_action, actions_given. simpl. rewrite Hids.
    simpl. rewrite (str_in_same_elements _ ids' ids) by (intros y; by rewrite Hsame).
    assert (Htruthy : truthy ids' = truthy ids).
    { destruct ids as [| i ids], ids' as [| i' ids']; try done.
      - exfalso. eapply not_elem_of_nil, Hsame, list_elem_of_here.
      - exfalso. eapply not_elem_of_nil, Hsame, list_elem_of_here. }
    by rewrite Htruthy. }
  generalize (@nil C).
  induction subclasses as [| k classes IH]; intros acc; simpl; [done |].
  rewrite Hstep. apply IH.
Qed.

End MoreSelection.

Lemma selection_without_list_witness :
  let b := Sample.batch_of ["/art"] None in
  (forall c, c ∈ @get_subclass_actions_to_perform _ _ _ Sample.actions b
             <-> c ∈ @subclasses _ Sample.actions
                 /\ @can_execute _ Sample.actions c = true)
  /\ NoDup (@get_subclass_actions_to_perform _ _ _ Sample.actions b).
Proof.
  apply (@selection_without_list _ _ _ Sample.actions
           (Sample.batch_of ["/art"] None)).
  reflexivity.
Defined.

Lemma selection_ignores_order_and_repeats_witness :
  @get_subclass_actions_to_perform _ _ _ Sample.actions
    (with_actions (Some ["verify_pbr_values"; "compress_png"; "verify_pbr_values"])
       (Sample.batch_of ["/art"] (Some ["compress_png"; "verify_pbr_values"])))
  = @get_subclass_actions_to_perform _ _ _ Sample.actions
      (Sample.batch_of ["/art"] (Some ["compress_png"; "verify_pbr_values"])).
Proof.
  apply (@selection_ignores_order_and_repeats _ _ _ Sample.actions
           (Sample.batch_of ["/art"] (Some ["compress_png"; "verify_pbr_values"]))
           ["compress_png"; "verify_pbr_values"]
           ["verify_pbr_values"; "compress_png"; "verify_pbr_values"]).
  - reflexivity.
  - intros x. rewrite !elem_of_cons, !elem_of_nil. tauto.
Defined.

(** ** Reasoning on computations *)

Lemma hoare_bind {S A B} (pre : S -> Prop) (mid : result A -> S -> Prop)
    (post : result B -> S -> Prop) (c : M S A) (k : A -> M S B) :
  hoare pre c mid ->
  (forall a, hoare (mid (Ok a)) (k a) post) ->
  (forall e s, mid (Raise e) s -> post (Raise e) s) ->
  hoare pre (bind c k) post.
Proof.
  intros Hc Hk Hraise s Hs. unfold bind. specialize (Hc s Hs).
  destruct (c s) as [[a | e] s1]; simpl in *; [by apply Hk | by apply Hraise].
Qed.

Lemma invariant_ret {S A} (inv : S -> Prop) (a : A) : invariant inv (ret a).
Proof. by intros s Hs. Qed.

Lemma invariant_bind {S A B} (inv : S -> Prop) (c : M S A) (k : A -> M S B) :
  invariant inv c -> (forall a, invariant inv (k a)) -> invariant inv (bind c k).
Proof.
  intros Hc Hk. apply (hoare_bind inv (fun _ s => inv s)); [done | done | done].
Qed.

(** After [b <~ this] the rest runs knowing that [b] is the batch. *)
Lemma invariant_this {B} (inv : BatchState -> Prop)
    (k : Image_Batch -> M BatchState B) :
  (forall b, hoare (fun s => inv s /\ batch s = b) (k b) (fun _ s => inv s)) ->
  invariant inv (bind this k).
Proof. intros Hk s Hs. unfold bind, this. by apply (Hk (batch s)). Qed.

Lemma invariant_when {S} (inv : S -> Prop) (c : bool) (body : M S unit) :
  invariant inv body -> invariant inv (when c body).
Proof. destruct c; [done | intros _; apply invariant_ret]. Qed.

Lemma invariant_for_each {S A} (inv : S -> Prop) (l : list A)
    (body : A -> M S unit) :
  (forall x, invariant inv (body x)) -> invariant inv (for_each l body).
Proof.
  intros Hbody. induction l as [| x l IH]; simpl; [apply invariant_ret |].
  apply invariant_bind; [apply Hbody | by intros _].
Qed.

Lemma invariant_fold_m {S A B} (inv : S -> Prop) (l : list A) (acc : B)
    (body : B -> A -> M S B) :
  (forall acc x, invariant inv (body acc x)) ->
  invariant inv (fold_m l acc body).
Proof.
  intros Hbody. revert acc.
  induction l as [| x l IH]; intros acc; simpl; [apply invariant_ret |].
  apply invariant_bind; [apply Hbody | apply IH].
Qed.

(** An invariant that does not look at the world survives the calls into
    the environment. *)
Lemma invariant_in_env {A} (inv : BatchState -> Prop) (c : M World A) :
  (forall s w', inv s ->
                inv {| batch := batch s; world := w'; trace := trace s |}) ->
  invariant inv (in_env c).
Proof.
  intros Hworld s Hs. unfold in_env.
  destruct (c (world s)) as [r w'] eqn:Hc. simpl. by apply Hworld.
Qed.

(** ** Invariants of a run *)

Section RunInvariant.

Variable P : Platform.
Context {C : Type} {Ceq : EqDecision C} {Ccount : Countable C}
        {Act : ImageAction C}.

Variable inv : BatchState -> Prop.

Hypothesis inv_world : forall s w',
  inv s -> inv {| batch := batch s; world := w'; trace := trace s |}.

Hypothesis inv_status : forall s value incr,
  inv s ->
  inv {| batch := {| headless := headless (batch s); frame := frame (batch s);
                     dirs := dirs (batch s); extensions := extensions (batch s);
                     actions := actions (batch s); log := log (batch s);
                     status_value := value; status_incr := incr |};
         world := world s; trace := trace s |}.

Hypothesis inv_times : forall s t1 t2 done,
  inv s ->
  inv {| batch := {| headless := headless (batch s); frame := frame (batch s);
                     dirs := dirs (batch s); extensions := extensions (batch s);
                     actions := actions (batch s);
                     log := {| log_filename := log_filename (log (batch s));
                               file_results := file_results (log (batch s));
                               file_fails := file_fails (log (batch s));
                               save_log := save_log (log (batch s));
                               start_time := t1; end_time := t2;
                               completed := done |};
                     status_value := status_value (batch s);
                     status_incr := status_incr (batch s) |};
         world := world s; trace := trace s |}.

Hypothesis inv_event : forall s ev,
  is_log_saved ev = false ->
  inv s ->
  inv {| batch := batch s; world := world s; trace := trace s ++ [ev] |}.

Lemma invariant_emit (ev : Event) :
  is_log_saved ev = false -> invariant inv (emit ev).
Proof. intros Hev s Hs. by apply inv_event. Qed.

Lemma invariant_update_status_value (value : option float) :
  invariant inv (update_status_value value).
Proof.
  unfold update_status_value. apply invariant_this. intros b.
  apply (hoare_bind _ (fun _ s => inv s)); [| | done].
  - intros s [Hs _]. destruct s as [[] ? ?]. by apply (inv_status _ _ _ Hs).
  - intros _. destruct (headless b); [by apply invariant_emit |].
    destruct (frame b) as [f |]; [| apply invariant_ret].
    apply invariant_when. by apply invariant_emit.
Qed.

Lemma invariant_update_status_msg (msg : string) :
  invariant inv (update_status_msg msg).
Proof.
  unfold update_status_msg. apply invariant_this. intros b s [Hs _].
  revert s Hs. change (invariant inv
    (if headless b then emit (EvStatus msg)
     else match frame b with
          | Some f => when (has_update_status_msg f) (emit (EvStatus msg))
          | None => ret tt
          end)).
  destruct (headless b); [by apply invariant_emit |].
  destruct (frame b) as [f |]; [| apply invariant_ret].
  apply invariant_when. by apply invariant_emit.
Qed.

Lemma invariant_update_status_incr : invariant inv (update_status_incr P).
Proof.
  unfold update_status_incr. apply invariant_this. intros b s [Hs _].
  revert s Hs.
  change (invariant inv
    (file_count <~ fold_m (dirs b) 0
                     (fun file_count directory =>
                        files <~ in_env (get_image_files P b directory) ;;
                        ret (file_count + Z.of_nat (length files))) ;;
     incr <~ of_result (div (of_int 100) (of_int file_count)) ;;
     set_this (fun b => {| headless := headless b; frame := frame b;
                           dirs := dirs b; extensions := extensions b;
                           actions := actions b; log := log b;
                           status_value := status_value b;
                           status_incr := incr |}))).
  apply invariant_bind.
  { apply invariant_fold_m. intros acc d. apply invariant_bind.
    - by apply invariant_in_env.
    - intros files. apply invariant_ret. }
  intros file_count. apply invariant_bind; [by intros s Hs |].
  intros incr s Hs. destruct s as [[] ? ?]. by apply (inv_status _ _ _ Hs).
Qed.

Lemma invariant_call_execute (sub_class : C) (image_obj : Image_Object) :
  invariant inv (call_execute sub_class image_obj).
Proof.
  intros s Hs. unfold call_execute.
  destruct (execute sub_class (image_obj, world s)) as [[v | e] [o' w']];
    simpl.
  - by apply (inv_event {| batch := batch s; world := w'; trace := trace s |}
                (EvExecute (action_name sub_class) (filename image_obj) (Ok v))
                eq_refl (inv_world s w' Hs)).
  - by apply (inv_event {| batch := batch s; world := w'; trace := trace s |}
                (EvExecute (action_name sub_class) (filename image_obj) (Raise e))
                eq_refl (inv_world s w' Hs)).
Qed.

(** A file handled with no action to perform. *)
Lemma invariant_process_file_idle (image : string) :
  invariant inv (process_file P (@nil C) image).
Proof.
  unfold process_file.
  apply invariant_bind; [apply invariant_update_status_value | intros _].
  apply invariant_bind; [by apply invariant_in_env | intros image_obj].
  apply invariant_ret.
Qed.

Section WithVerdicts.

Hypothesis inv_verdict : forall s name action success results,
  inv s ->
  inv {| batch := {| headless := headless (batch s); frame := frame (batch s);
                     dirs := dirs (batch s); extensions := extensions (batch s);
                     actions := actions (batch s);
                     log := record_verdict name action success results
                              (log (batch s));
                     status_value := status_value (batch s);
                     status_incr := status_incr (batch s) |};
         world := world s; trace := trace s |}.

Lemma invariant_perform_action (image_obj : Image_Object) (sub_class : C) :
  invariant inv (perform_action P image_obj sub_class).
Proof.
  unfold perform_action.
  apply invariant_bind; [apply invariant_update_status_msg | intros _].
  apply invariant_bind; [apply invariant_call_execute |].
  intros [[success results] o'] s Hs.
  specialize (inv_verdict s (filename o') (action_name sub_class)
                success results Hs).
  unfold record_verdict in inv_verdict. by destruct success.
Qed.

Lemma invariant_process_directory (todo : list C) (directory : string) :
  invariant inv (process_directory P todo directory).
Proof.
  unfold process_directory. apply invariant_this. intros b s [Hs _].
  revert s Hs.
  change (invariant inv
    (image_files <~ in_env (get_image_files P b directory) ;;
     for_each image_files (process_file P todo))).
  apply invariant_bind; [by apply invariant_in_env | intros image_files].
  apply invariant_for_each. intros image. unfold process_file.
  apply invariant_bind; [apply invariant_update_status_value | intros _].
  apply invariant_bind; [by apply invariant_in_env | intros image_obj].
  apply invariant_bind; [| intros ?; apply invariant_ret].
  apply invariant_fold_m. intros o c. apply invariant_perform_action.
Qed.

Lemma invariant_run_loops : invariant inv (run_loops P).
Proof.
  unfold run_loops. apply invariant_this. intros b s [Hs _].
  revert s Hs.
  change (invariant inv
    (for_each (dirs b)
       (process_directory P (get_subclass_actions_to_perform b)))).
  apply invariant_for_each. intros directory.
  apply invariant_process_directory.
Qed.

End WithVerdicts.

Lemma invariant_process_directory_idle (directory : string) :
  invariant inv (process_directory P (@nil C) directory).
Proof.
  unfold process_directory. apply invariant_this. intros b s [Hs _].
  revert s Hs.
  change (invariant inv
    (image_files <~ in_env (get_image_files P b directory) ;;
     for_each image_files (process_file P (@nil C)))).
  apply invariant_bind; [by apply invariant_in_env | intros image_files].
  apply invariant_for_each. intros image. apply invariant_process_file_idle.
Qed.

(** [start] keeps an invariant that clearing the log establishes, that the
    loop over the directories keeps and that saving the report keeps. *)
Lemma invariant_start (pre : BatchState -> Prop) :
  (forall s, pre s -> inv (cleared s)) ->
  (forall b, hoare (fun s => inv s /\ batch s = b)
               (for_each (dirs b)
                  (process_directory P (get_subclass_actions_to_perform b)))
               (fun _ s => inv s)) ->
  (forall b, hoare (fun s => inv s /\ batch s = b)
               (Log_File_save P (log b)) (fun _ s => inv s)) ->
  hoare pre (start P) (fun _ s => inv s).
Proof.
  intros Hclear Hloop Hsave. unfold start.
  apply (hoare_bind _ (fun _ s => inv s)); [| | done].
  { intros s Hs. by apply Hclear. }
  intros _.
  apply invariant_bind; [apply invariant_update_status_incr | intros _].
  apply invariant_bind; [apply invariant_update_status_value | intros _].
  apply invariant_bind; [by apply invariant_in_env | intros t].
  apply invariant_bind.
  { intros s Hs. destruct s as [[? ? ? ? ? [] ? ?] ? ?].
    by apply (inv_times _ t _ _ Hs). }
  intros _. apply invariant_this. intros b.
  apply (hoare_bind _ (fun _ s => inv s)); [apply Hloop | | done].
  intros _.
  apply invariant_bind; [by apply invariant_in_env | intros t'].
  apply invariant_bind.
  { intros s Hs. destruct s as [[? ? ? ? ? [] ? ?] ? ?].
    by apply (inv_times _ _ t' true Hs). }
  intros _. apply invariant_this. intros b'.
  apply (hoare_bind _ (fun _ s => inv s)); [apply Hsave | | done].
  intros _.
  apply invariant_bind; [apply invariant_update_status_value | intros _].
  apply invariant_update_status_msg.
Qed.

End RunInvariant.

(** ** Runs that record or write nothing *)

Section QuietRuns.

Variable P : Platform.
Context {C : Type} {Ceq : EqDecision C} {Ccount : Countable C}
        {Act : ImageAction C}.

Lemma Log_File_save_batch (l : Log_File) (s : BatchState) :
  batch (snd (Log_File_save P l s)) = batch s.
Proof.
  unfold Log_File_save. destruct (save_log l); [| done].
  unfold bind, of_result, in_env, emit, modify.
  destruct (toprettyxml P (root_element l)) as [xml_str | e]; [| done].
  by destruct (write_text_file (log_filename l) xml_str (world s))
    as [[[] | e] w'].
Qed.

(** X13.  When the selection is empty (no class enabled, or only unknown
    identifiers given) a run records nothing: both maps of the report are
    empty in the state [start] ends in, whether it completes or raises. *)
Theorem run_without_actions_records_nothing (s : BatchState) :
  get_subclass_actions_to_perform (batch s) = [] ->
  file_results (log (batch (snd (start P s)))) = ∅
  /\ file_fails (log (batch (snd (start P s)))) = ∅.
Proof.
  intros Hnone.
  assert (Hworld : forall s0 w', nothing_to_record s0 ->
            nothing_to_record
              {| batch := batch s0; world := w'; trace := trace s0 |})
    by (by intros s0 w' (? & ? & ?)).
  assert (Hstatus : forall s0 value incr, nothing_to_record s0 ->
            nothing_to_record
              {| batch := {| headless := headless (batch s0);
                             frame := frame (batch s0); dirs := dirs (batch s0);
                             extensions := extensions (batch s0);
                             actions := actions (batch s0);
                             log := log (batch s0);
                             status_value := value; status_incr := incr |};
                 world := world s0; trace := trace s0 |})
    by (by intros s0 value incr (? & ? & ?)).
  assert (Hevent : forall s0 ev, is_log_saved ev = false ->
            nothing_to_record s0 ->
            nothing_to_record
              {| batch := batch s0; world := world s0;
                 trace := trace s0 ++ [ev] |})
    by (by intros s0 ev _ (? & ? & ?)).
  enough (Hinv : nothing_to_record (snd (start P s))).
  { destruct Hinv as (? & ? & _). done. }
  apply (invariant_start P nothing_to_record Hworld Hstatus
           ltac:(by intros s0 t1 t2 done (? & ? & ?)) Hevent
           (fun s => get_subclass_actions_to_perform (batch s) = [])).
  - intros s0 Hs0. by repeat split.
  - intros b s0 [Hs <-]. pose proof Hs as (_ & _ & Htodo).
    rewrite Htodo.
    apply (invariant_for_each nothing_to_record (dirs (batch s0))
             (process_directory P (@nil C))); [| exact Hs].
    intros d. by apply invariant_process_directory_idle.
  - intros b s0 [Hs _]. unfold nothing_to_record.
    by rewrite Log_File_save_batch.
  - exact Hnone.
Qed.

Lemma save_log_record_verdict (name action : string) (success : bool)
    (results : string) (l : Log_File) :
  save_log (record_verdict name action success results l) = save_log l.
Proof. unfold record_verdict. by destruct success. Qed.

(** X14.  With the report switched off by [set_save_log( False )], a run never
    writes the report, whatever the actions do and however the run ends;
    the switch stays off. *)
Theorem run_with_log_off_writes_no_report (s : BatchState) :
  Forall (fun ev => is_log_saved ev = false) (trace s) ->
  let off := {| batch := set_save_log false (batch s); world := world s;
                trace := trace s |} in
  Forall (fun ev => is_log_saved ev = false) (trace (snd (start P off)))
  /\ save_log (log (batch (snd (start P off)))) = false.
Proof.
  intros Htrace off.
  assert (Hworld : forall s0 w', report_off s0 ->
            report_off {| batch := batch s0; world := w'; trace := trace s0 |})
    by (by intros s0 w' [? ?]).
  assert (Hstatus : forall s0 value incr, report_off s0 ->
            report_off
              {| batch := {| headless := headless (batch s0);
                             frame := frame (batch s0); dirs := dirs (batch s0);
                             extensions := extensions (batch s0);
                             actions := actions (batch s0);
                             log := log (batch s0);
                             status_value := value; status_incr := incr |};
                 world := world s0; trace := trace s0 |})
    by (by intros s0 value incr [? ?]).
  assert (Hevent : forall s0 ev, is_log_saved ev = false -> report_off s0 ->
            report_off {| batch := batch s0; world := world s0;
                          trace := trace s0 ++ [ev] |}).
  { intros s0 ev Hev [? ?]. split; [done |]. simpl.
    apply Forall_app_2; [done | by apply Forall_singleton]. }
  enough (Hinv : report_off (snd (start P off))).
  { destruct Hinv as [? ?]. done. }
  apply (invariant_start P report_off Hworld Hstatus
           ltac:(by intros s0 t1 t2 done [? ?]) Hevent report_off).
  - by intros s0 [? ?].
  - intros b s0 [Hs <-].
    apply (invariant_for_each report_off (dirs (batch s0))
             (process_directory P
                (get_subclass_actions_to_perform (batch s0)))); [| exact Hs].
    intros d. apply invariant_process_directory; try done.
    intros s1 name action success results [Hoff ?]. split; [| done].
    simpl. by rewrite save_log_record_verdict.
  - intros b s0 [[Hoff Hquiet] <-]. unfold Log_File_save. by rewrite Hoff.
  - by split.
Qed.

End QuietRuns.

Lemma run_without_actions_records_nothing_witness :
  let s := {| batch := headless_batch "/report.xml"
                         ["-headless"; "-dirs=/art"; "-exts=png"; "-actions="];
              world := Sample.disk; trace := [] |} in
  file_results (log (batch (snd (@start Sample.platform _ _ _ Sample.actions s))))
  = ∅
  /\ file_fails (log (batch (snd (@start Sample.platform _ _ _ Sample.actions s))))
     = ∅.
Proof.
  apply (@run_without_actions_records_nothing Sample.platform _ _ _
           Sample.actions).
  vm_compute. reflexivity.
Defined.

Lemma run_with_log_off_writes_no_report_witness :
  let off := {| batch := set_save_log false
                           (Sample.batch_of ["/art"] (Some ["check_power_of_2"]));
                world := Sample.disk; trace := [] |} in
  Forall (fun ev => is_log_saved ev = false)
    (trace (snd (@start Sample.platform _ _ _ Sample.actions off)))
  /\ save_log (log (batch (snd (@start Sample.platform _ _ _ Sample.actions off))))
     = false.
Proof.
  apply (@run_with_log_off_writes_no_report Sample.platform _ _ _ Sample.actions
           (Sample.state_of ["/art"] (Some ["check_power_of_2"]))).
  apply Forall_nil_2.
Defined.

(** ** Scanning the directories *)

Section Scanning.

Variable P : Platform.
Context {C : Type} {Ceq : EqDecision C} {Ccount : Countable C}
        {Act : ImageAction C}.

(** X15.  [get_image_files] on the three kinds of path.  A path that does not
    exist gives the empty list; a path that is a regular file raises
    [OSError]; a directory gives the joined paths of its entries that are
    regular files and whose extension, dots removed and case unchanged, is
    in [extensions].  Every path it returns passes the existence check of
    [Image_Object]. *)
Theorem get_image_files_behaviour (b : Image_Batch) (directory : string)
    (w : World) :
  (fs w !! directory = None ->
   get_image_files P b directory w = (Ok [], w))
  /\ (forall content m,
        fs w !! directory = Some (File content m) ->
        get_image_files P b directory w = (Raise OSError, w))
  /\ (forall entries m,
        fs w !! directory = Some (Dir entries m) ->
        exists files,
          get_image_files P b directory w = (Ok files, w)
          /\ (forall f, f ∈ files
                        <-> exists name,
                              name ∈ entries
                              /\ f = join P directory name
                              /\ os_path_isfile w f = true
                              /\ remove_char "." (snd (splitext P f))
                                 ∈ extensions b)
          /\ (forall f, f ∈ files ->
                        Image_Object_init f w
                        = (Ok {| filename := f; image := None;
                                 is_editable := false; is_open := false |},
                           w))).
Proof.
  unfold get_image_files, os_path_exists, os_listdir.
  split; [| split].
  - intros Hnone. run_step. by rewrite Hnone.
  - intros content m Hfile. run_step. rewrite Hfile. simpl. by rewrite Hfile.
  - intros entries m Hdir. run_step. rewrite Hdir. simpl. rewrite Hdir.
    eexists. split; [reflexivity |].
    assert (Hmem : forall f,
               f ∈ List.filter
                     (fun f => str_in (remove_char "." (snd (splitext P f)))
                                 (extensions b))
                     (map (join P directory)
                        (List.filter
                           (fun f => os_path_isfile w (join P directory f))
                           entries))
               <-> exists name,
                     name ∈ entries /\ f = join P directory name
                     /\ os_path_isfile w f = true
                     /\ remove_char "." (snd (splitext P f)) ∈ extensions b).
    { intros f. rewrite list_elem_of_In, filter_In, in_map_iff, str_in_elem.
      split.
      - intros [(name & <- & Hin) Hext].
        apply filter_In in Hin as [Hin Hisfile].
        exists name. by rewrite list_elem_of_In.
      - intros (name & Hin & -> & Hisfile & Hext).
        split; [| done]. exists name. split; [done |].
        apply filter_In. by rewrite <- list_elem_of_In. }
    split; [exact Hmem |].
    intros f Hf. apply Hmem in Hf as (name & _ & _ & Hisfile & _).
    unfold Image_Object_init, os_path_exists, os_path_isfile in *. run_step.
    by destruct (fs w !! f) as [[? ? | ? ?] |].
Qed.

End Scanning.

Lemma get_image_files_behaviour_witness :
  get_image_files Sample.platform (Sample.batch_of [] None) "/missing"
    Sample.disk
  = (Ok [], Sample.disk)
  /\ get_image_files Sample.platform (Sample.batch_of [] None)
       "/art/notes.txt" Sample.disk
     = (Raise OSError, Sample.disk)
  /\ exists files,
       get_image_files Sample.platform (Sample.batch_of [] None) "/art"
         Sample.disk
       = (Ok files, Sample.disk)
       /\ forall f, f ∈ files ->
                    Image_Object_init f Sample.disk
                    = (Ok {| filename := f; image := None;
                             is_editable := false; is_open := false |},
                       Sample.disk).
Proof.
  destruct (get_image_files_behaviour Sample.platform (Sample.batch_of [] None)
              "/missing" Sample.disk) as (Hmissing & _ & _).
  destruct (get_image_files_behaviour Sample.platform (Sample.batch_of [] None)
              "/art/notes.txt" Sample.disk) as (_ & Hfile & _).
  destruct (get_image_files_behaviour Sample.platform (Sample.batch_of [] None)
              "/art" Sample.disk) as (_ & _ & Hdir).
  split; [apply Hmissing; reflexivity |].
  split; [apply (Hfile "todo"%string 420); reflexivity |].
  destruct (Hdir ["stone_mra.png"; "notes.txt"]%string 493 eq_refl)
    as (files & Hrun & _ & Hopen).
  by exists files.
Defined.

(** ** The progress of a run *)

Section Progress.

Variable P : Platform.
Context {C : Type} {Ceq : EqDecision C} {Ccount : Countable C}
        {Act : ImageAction C}.

Lemma count_files_listed (b : Image_Batch) (s : BatchState)
    (listing : string -> list string) (directories : list string)
    (file_count : Z) :
  (forall d, d ∈ directories ->
             fst (get_image_files P b d (world s)) = Ok (listing d)) ->
  fold_m directories file_count
    (fun file_count directory =>
       files <~ in_env (get_image_files P b directory) ;;
       ret (file_count + Z.of_nat (length files))) s
  = (Ok (fold_left (fun n d => n + Z.of_nat (length (listing d)))
           directories file_count), s).
Proof.
  revert file_count.
  induction directories as [| d rest IH]; intros file_count Hlisted; simpl.
  - reflexivity.
  - assert (Hd : in_env (get_image_files P b d) s = (Ok (listing d), s)).
    { unfold in_env.
      pose proof (Hlisted d ltac:(left)) as Hfiles.
      pose proof (get_image_files_world P b d (world s)) as Hworld.
      destruct (get_image_files P b d (world s)) as [r w']. simpl in *.
      subst. by destruct s. }
    rewrite (bind_ok _ _ _ _ _ (bind_ok _ _ _ _ _ Hd)).
    apply IH. intros d' Hd'. apply Hlisted. by right.
Qed.

(** X16.  As soon as the directories hold one matching file, the division of
    [update_status_incr] cannot raise: the increment becomes 100 divided by
    the number of files, counted with the directories as often as they are
    listed, and nothing else changes. *)
Theorem progress_increment_is_100_over_files (s : BatchState)
    (listing : string -> list string) :
  (forall d, d ∈ dirs (batch s) ->
             fst (get_image_files P (batch s) d (world s)) = Ok (listing d)) ->
  0 < total_files listing (dirs (batch s)) ->
  update_status_incr P s
  = (Ok tt,
     with_status_incr
       (SFdiv prec emax (of_int 100)
          (of_int (total_files listing (dirs (batch s))))) s).
Proof.
  intros Hlisted Hsome. unfold update_status_incr.
  rewrite (bind_ok this _ s s (batch s) eq_refl).
  rewrite (bind_ok _ _ _ _ _
             (count_files_listed (batch s) s listing (dirs (batch s)) 0 Hlisted)).
  fold (total_files listing (dirs (batch s))).
  unfold bind, of_result, div.
  by rewrite (of_int_nonzero _ Hsome).
Qed.

Lemma bind_ok_inv {S A B} (c : M S A) (k : A -> M S B) (s s' : S) (b : B) :
  bind c k s = (Ok b, s') ->
  exists a s1, c s = (Ok a, s1) /\ k a s1 = (Ok b, s').
Proof.
  unfold bind. destruct (c s) as [[a | e] s1]; [| discriminate].
  intros Hk. by exists a, s1.
Qed.

Lemma start_in_three_parts (s : BatchState) :
  start P s
  = (set_log Log_File_clear ;;;
     update_status_incr P ;;;
     update_status_value (Some (of_int 0)) ;;;
     t <~ in_env time_time ;;
     set_log (fun l => {| log_filename := log_filename l;
                          file_results := file_results l;
                          file_fails := file_fails l; save_log := save_log l;
                          start_time := t; end_time := end_time l;
                          completed := completed l |}) ;;;
     run_loops P ;;;
     run_closing P) s.
Proof. reflexivity. Qed.

(** What the closing statements leave when they return. *)
Lemma run_closing_returns (s s' : BatchState) :
  run_closing P s = (Ok tt, s') ->
  completed (log (batch s')) = true
  /\ status_value (batch s') = of_int 100
  /\ headless (batch s') = headless (batch s)
  /\ (headless (batch s) = true ->
      exists t, trace s' = trace s ++ t
                           ++ [EvProgress (of_int 100);
                               EvStatus "Batch Completed"]).
Proof.
  unfold run_closing. intros Hrun.
  apply bind_ok_inv in Hrun as (t & s1 & Htime & Hrun).
  apply bind_ok_inv in Hrun as ([] & s2 & Hset & Hrun).
  apply bind_ok_inv in Hrun as (b & s2' & Hthis & Hrun).
  apply bind_ok_inv in Hrun as ([] & s3 & Hsave & Hrun).
  injection Hthis as <- <-. injection Hset as <-.
  assert (Hs1 : batch s1 = batch s /\ trace s1 = trace s).
  { unfold in_env in Htime. destruct (time_time (world s)).
    by injection Htime as _ <-. }
  destruct Hs1 as [Hb1 Ht1].
  match type of Hsave with
  | Log_File_save _ ?l ?s0 = _ =>
      pose proof (Log_File_save_batch P l s0) as Hb3;
      destruct (Log_File_save_run P l s0) as (r & s3' & t3 & Hsave' & Ht3 & _)
  end.
  rewrite Hsave in Hsave', Hb3. injection Hsave' as <- <-.
  simpl in Hb3, Ht3.
  revert Hrun. unfold update_status_value, update_status_msg, this, set_this,
    emit. run_step. rewrite Hb3. simpl.
  rewrite Hb1. destruct (headless (batch s)) eqn:Hheadless.
  - intros [= <-]. simpl. repeat split; try done.
    intros _. exists t3. rewrite Ht3, Ht1. by rewrite <- !app_assoc.
  - destruct (frame (batch s)) as [[[] []] |]; intros [= <-]; simpl;
      rewrite ?Hheadless; by repeat split.
Qed.

(** X17.  A run that returns has set [completed] and left the progress value at
    100.  A headless run printed the progress value 0 first, before any
    other output, and the progress value 100 and the status line
    [Batch Completed] last. *)
Theorem completed_run_reaches_100 (s s' : BatchState) :
  start P s = (Ok tt, s') ->
  completed (log (batch s')) = true
  /\ status_value (batch s') = of_int 100
  /\ (headless (batch s) = true ->
      exists mid,
        trace s' = trace s ++ EvProgress (of_int 0) :: mid
                   ++ [EvProgress (of_int 100); EvStatus "Batch Completed"]).
Proof.
  rewrite start_in_three_parts. intros Hrun.
  apply bind_ok_inv in Hrun as ([] & s1 & Hclear & Hrun).
  apply bind_ok_inv in Hrun as ([] & s2 & Hincr & Hrun).
  apply bind_ok_inv in Hrun as ([] & s3 & Hzero & Hrun).
  apply bind_ok_inv in Hrun as (t & s4 & Htime & Hrun).
  apply bind_ok_inv in Hrun as ([] & s5 & Hset & Hrun).
  apply bind_ok_inv in Hrun as ([] & s6 & Hloops & Hclosing).
  destruct (run_closing_returns _ _ Hclosing) as (Hdone & Hvalue & _ & Htrace).
  split; [done |]. split; [done |]. intros Hheadless.
  injection Hclear as <-.
  (* up to the first event *)
  pose (inv0 := fun s0 : BatchState =>
                  headless (batch s0) = true /\ trace s0 = trace s).
  assert (H2 : inv0 s2).
  { pose proof (invariant_update_status_incr P inv0) as Hinv.
    unfold invariant, hoare in Hinv.
    specialize (Hinv ltac:(by intros ? ? [? ?]) ltac:(by intros ? ? ? [? ?])
                  (cleared s) (conj Hheadless eq_refl)).
    unfold cleared in Hinv. by rewrite Hincr in Hinv. }
  destruct H2 as [Hheadless2 Htrace2].
  assert (H3 : headless_from_zero (trace s) s3).
  { revert Hzero. unfold update_status_value, this, set_this, emit. run_step.
    rewrite Hheadless2. intros [= <-]. split; [done |].
    exists []. simpl. by rewrite Htrace2. }
  (* from there to the closing statements *)
  assert (Hworld : forall s0 w',
            headless_from_zero (trace s) s0 ->
            headless_from_zero (trace s)
              {| batch := batch s0; world := w'; trace := trace s0 |})
    by done.
  assert (H4 : headless_from_zero (trace s) s4).
  { pose proof (invariant_in_env (headless_from_zero (trace s)) time_time
                  Hworld s3 H3) as Hinv.
    by rewrite Htime in Hinv. }
  assert (H5 : headless_from_zero (trace s) s5).
  { injection Hset as <-. by destruct H4. }
  assert (H6 : headless_from_zero (trace s) s6).
  { pose proof (invariant_run_loops P (headless_from_zero (trace s)))
      as Hinv.
    unfold invariant, hoare in Hinv.
    specialize (Hinv Hworld ltac:(by intros ? ? ? [? ?])).
    assert (Hevent : forall s0 ev,
              is_log_saved ev = false ->
              headless_from_zero (trace s) s0 ->
              headless_from_zero (trace s)
                {| batch := batch s0; world := world s0;
                   trace := trace s0 ++ [ev] |}).
    { intros s0 ev _ [Hh [mid Hmid]]. split; [done |].
      exists (mid ++ [ev]). simpl. rewrite Hmid.
      by rewrite <- app_assoc. }
    specialize (Hinv Hevent ltac:(by intros ? ? ? ? ? [? ?]) s5 H5).
    by rewrite Hloops in Hinv. }
  destruct H6 as [Hheadless6 [mid Hmid]].
  destruct (Htrace Hheadless6) as [t6 Ht6].
  exists (mid ++ t6). rewrite Ht6, Hmid.
  by rewrite <- !app_assoc.
Qed.

End Progress.

Lemma progress_increment_is_100_over_files_witness :
  update_status_incr Sample.platform
    (Sample.state_of ["/art"; "/art"]%string None)
  = (Ok tt,
     with_status_incr (SFdiv prec emax (of_int 100) (of_int 2))
       (Sample.state_of ["/art"; "/art"]%string None)).
Proof.
  apply (progress_increment_is_100_over_files Sample.platform
           (Sample.state_of
              ["/art"; "/art"]%string None)
           (fun _ => ["/art/stone_mra.png"%string])).
  - intros d Hd. simpl in Hd.
    apply elem_of_cons in Hd as [-> | Hd]; [by vm_compute |].
    apply elem_of_cons in Hd as [-> | Hd]; [by vm_compute |].
    by apply elem_of_nil in Hd.
  - by vm_compute.
Defined.

Lemma completed_run_reaches_100_witness :
  let s := Sample.state_of ["/art"]%string None in
  let s' := snd (@start Sample.platform _ _ _ Sample.actions s) in
  completed (log (batch s')) = true
  /\ status_value (batch s') = of_int 100
  /\ exists mid,
       trace s' = trace s ++ EvProgress (of_int 0) :: mid
                  ++ [EvProgress (of_int 100); EvStatus "Batch Completed"].
Proof.
  intros s s'.
  assert (Hrun : @start Sample.platform _ _ _ Sample.actions s = (Ok tt, s'))
    by (vm_compute; reflexivity).
  destruct (@completed_run_reaches_100 Sample.platform _ _ _ Sample.actions
              s s' Hrun)
    as (Hdone & Hvalue & Htrace).
  split; [exact Hdone |]. split; [exact Hvalue |].
  apply Htrace. reflexivity.
Defined.

(** ** Saving the report *)

Section SavingTheReport.

Variable P : Platform.


(** X19.  [Log_File.save] on a path that is a directory, or a file without the
    write bit, raises [IOError] and changes nothing. *)
Theorem report_is_refused_where_not_writable (l : Log_File) (s : BatchState)
    (xml_str : string) :
  save_log l = true ->
  toprettyxml P (root_element l) = Ok xml_str ->
  match fs (world s) !! log_filename l with
  | Some (Dir _ _) => True
  | Some (File _ m) => Z.land m S_IWRITE = 0
  | None => False
  end ->
  Log_File_save P l s = (Raise IOError, s).
Proof.
  intros Hon Hxml Hbusy. unfold Log_File_save. rewrite Hon.
  unfold bind, of_result. rewrite Hxml.
  unfold in_env, write_text_file, emit, bind, get, modify, raise.
  destruct (fs (world s) !! log_filename l) as [[old m | entries m] |];
    [| | done].
  - apply Z.eqb_eq in Hbusy. rewrite Hbusy. by destruct s.
  - by destruct s.
Qed.

End SavingTheReport.


Lemma report_is_refused_where_not_writable_witness :
  Log_File_save Sample.platform (Log_File_init "/art")
    (Sample.state_of [] None)
  = (Raise IOError, Sample.state_of [] None).
Proof.
  apply (report_is_refused_where_not_writable Sample.platform
           (Log_File_init "/art") (Sample.state_of [] None) "<root/>");
    [reflexivity | reflexivity | by vm_compute].
Defined.

(** ** The command line *)

Lemma prefix_app (p x : string) : String.prefix p (p ++ x) = true.
Proof.
  induction p as [| c p IH]; [by destruct x |].
  rewrite append_cons. simpl. by destruct (ascii_dec c c).
Qed.





Lemma fold_keeps_headless (step : Run_Arguments -> string -> Run_Arguments) :
  (forall a x, arg_headless (step a x) = arg_headless a) ->
  forall l a, arg_headless (fold_left step l a) = arg_headless a.
Proof.
  intros Hstep l. induction l as [| x l IH]; intros a; simpl; [done |].
  by rewrite IH, Hstep.
Qed.

Lemma parse_arguments_last (before : list string) (arg : string) :
  exists a,
    arg_headless a = str_in ARG_HEADLESS (before ++ [arg])
    /\ parse_arguments (before ++ [arg])
       = (let a := if startswith arg ARG_DIRS then
                     {| arg_headless := arg_headless a;
                        arg_dirs := split "," (after_prefix ARG_DIRS arg);
                        arg_extensions := arg_extensions a;
                        arg_actions := arg_actions a;
                        arg_log_filepath := arg_log_filepath a |}
                   else a in
          let a := if startswith arg ARG_EXTENTIONS then
                     {| arg_headless := arg_headless a;
                        arg_dirs := arg_dirs a;
                        arg_extensions :=
                          split "," (after_prefix ARG_EXTENTIONS arg);
                        arg_actions := arg_actions a;
                        arg_log_filepath := arg_log_filepath a |}
                   else a in
          let a := if startswith arg ARG_ACTIONS then
                     {| arg_headless := arg_headless a;
                        arg_dirs := arg_dirs a;
                        arg_extensions := arg_extensions a;
                        arg_actions :=
                          Some (split "," (after_prefix ARG_ACTIONS arg));
                        arg_log_filepath := arg_log_filepath a |}
                   else a in
          if startswith arg ARG_LOG_FILEPATH then
            {| arg_headless := arg_headless a;
               arg_dirs := arg_dirs a;
               arg_extensions := arg_extensions a;
               arg_actions := arg_actions a;
               arg_log_filepath := lstrip arg ARG_LOG_FILEPATH |}
          else a).
Proof.
  unfold parse_arguments. rewrite fold_left_app.
  match goal with
  | |- context [fold_left ?step before ?init] =>
      exists (fold_left step before init)
  end.
  split; [| reflexivity].
  rewrite fold_keeps_headless; [done |]. intros a x.
  by destruct (startswith x ARG_DIRS), (startswith x ARG_EXTENTIONS),
    (startswith x ARG_ACTIONS), (startswith x ARG_LOG_FILEPATH).
Qed.



Lemma lstrip_prefix (p x chars : string) :
  (forall c, mem_char c p = true -> mem_char c chars = true) ->
  lstrip (p ++ x) chars = lstrip x chars.
Proof.
  induction p as [| c p IH]; intros Hp; [done |].
  rewrite append_cons. simpl.
  rewrite (Hp c) by (simpl; by rewrite Ascii.eqb_refl).
  apply IH. intros c' Hc'. apply Hp. simpl. rewrite Hc'. apply orb_true_r.
Qed.

Lemma lstrip_length (s chars : string) :
  (String.length (lstrip s chars) <= String.length s)%nat.
Proof.
  induction s as [| c s IH]; simpl; [done |].
  destruct (mem_char c chars); simpl; lia.
Qed.

(** X21.  The path given with [-logfile=] goes through [lstrip], which takes a set
    of characters, not a prefix: the path arrives whole exactly when it is
    empty or its first character is none of the characters of [-logfile=];
    otherwise its leading characters among them are lost. *)
Theorem logfile_argument_kept_iff (before : list string) (path : string) :
  arg_log_filepath
    (parse_arguments (before ++ [(ARG_LOG_FILEPATH ++ path)%string]))
  = lstrip path ARG_LOG_FILEPATH
  /\ (lstrip path ARG_LOG_FILEPATH = path
      <-> match path with
          | EmptyString => True
          | String c _ => mem_char c ARG_LOG_FILEPATH = false
          end).
Proof.
  split.
  - destruct (parse_arguments_last before (ARG_LOG_FILEPATH ++ path)%string)
      as (a & _ & ->).
    unfold startswith at 4. rewrite prefix_app. cbv zeta. simpl.
    by apply lstrip_prefix.
  - destruct path as [| c rest]; cbn [lstrip]; [done |].
    destruct (mem_char c ARG_LOG_FILEPATH) eqn:Hc; [| done].
    split; [| done]. intros Hsame.
    pose proof (lstrip_length rest ARG_LOG_FILEPATH) as Hlen.
    rewrite Hsame in Hlen. cbn [String.length] in Hlen. lia.
Qed.

(** X22.  An argument that is not [-headless] and starts with none of the four
    prefixes changes nothing, wherever it stands: the variables of [run]
    end as they would without it. *)
Theorem unknown_argument_is_ignored (before after : list string)
    (arg : string) :
  arg <> ARG_HEADLESS ->
  startswith arg ARG_DIRS = false ->
  startswith arg ARG_EXTENTIONS = false ->
  startswith arg ARG_ACTIONS = false ->
  startswith arg ARG_LOG_FILEPATH = false ->
  parse_arguments (before ++ arg :: after) = parse_arguments (before ++ after).
Proof.
  intros Hflag Hdirs Hexts Hactions Hlog. unfold parse_arguments.
  assert (Hsame : str_in ARG_HEADLESS (before ++ arg :: after)
                  = str_in ARG_HEADLESS (before ++ after)).
  { unfold str_in. rewrite !existsb_app. cbn [existsb].
    apply String.eqb_neq in Hflag. rewrite String.eqb_sym in Hflag.
    by rewrite Hflag. }
  rewrite Hsame, !fold_left_app.
  match goal with
  | |- context [fold_left ?step before ?init] =>
      set (a := fold_left step before init)
  end.
  cbn [fold_left]. by rewrite Hdirs, Hexts, Hactions, Hlog.
Qed.

Lemma unknown_argument_is_ignored_witness :
  parse_arguments ["-dirs=/art"; "--verbose"; "-headless"]%string
  = parse_arguments ["-dirs=/art"; "-headless"]%string.
Proof.
  by apply (unknown_argument_is_ignored ["-dirs=/art"%string]
              ["-headless"%string] "--verbose"%string).
Defined.

(** X23.  [headless] is set exactly when [-headless] is one of the arguments,
    wherever it stands. *)
Theorem headless_iff_flag_given (arguments : list string) :
  arg_headless (parse_arguments arguments) = true
  <-> ARG_HEADLESS ∈ arguments.
Proof.
  rewrite <- str_in_elem. unfold parse_arguments.
  rewrite fold_keeps_headless; [done |]. intros a x.
  by destruct (startswith x ARG_DIRS), (startswith x ARG_EXTENTIONS),
    (startswith x ARG_ACTIONS), (startswith x ARG_LOG_FILEPATH).
Qed.

(** ** The frame *)

Lemma IMAGE_EXTENSTIONS_sorted :
  IMAGE_EXTENSTIONS = ["bmp"; "jpg"; "png"; "tga"]%string.
Proof. by vm_compute. Qed.

Lemma leb_compare (a b : string) :
  String.leb a b = true <-> String.compare a b <> Gt.
Proof. unfold String.leb. by destruct (String.compare a b). Qed.

Lemma compare_not_gt_trans (a b c : string) :
  String.compare a b <> Gt -> String.compare b c <> Gt ->
  String.compare a c <> Gt.
Proof.
  revert b c. induction a as [| x a IH]; intros [| y b] [| z c]; simpl;
    try done.
  unfold Ascii.compare.
  destruct (N.compare_spec (N_of_ascii x) (N_of_ascii y)),
    (N.compare_spec (N_of_ascii y) (N_of_ascii z)),
    (N.compare_spec (N_of_ascii x) (N_of_ascii z));
    try done; try lia.
  apply IH.
Qed.

#[local] Instance str_le_total : Total str_le.
Proof. intros a b. apply String.leb_total. Qed.

#[local] Instance str_le_trans : Transitive str_le.
Proof.
  intros a b c. unfold str_le. rewrite !leb_compare.
  apply compare_not_gt_trans.
Qed.

#[local] Instance str_le_antisym : AntiSymm (=) str_le.
Proof. intros a b. apply String.leb_antisym. Qed.

Lemma index_spec (x : string) (l : list string) :
  if str_in x l then exists i, index x l = Ok i /\ (i < length l)%nat
  else index x l = Raise ValueError.
Proof.
  unfold str_in. induction l as [| y l IH]; simpl; [done |].
  rewrite (String.eqb_sym x y).
  destruct (String.eqb y x); simpl.
  - exists 0%nat. split; [done | lia].
  - destruct (existsb (String.eqb x) l).
    + destruct IH as (i & -> & Hi). exists (S i). split; [done | lia].
    + by rewrite IH.
Qed.

(** The loop of [refresh_ui] over the extensions. *)
Lemma refresh_loop (exts : list string) (f : Image_Processor_Frame) :
  let r := for_each exts
             (fun ext =>
                idx <~ of_result
                         (index (lower ext) (map lower IMAGE_EXTENSTIONS)) ;;
                if (0 <? idx)%nat then Check idx true else Check idx false)
             f in
  fst r = (if forallb known_extension exts then Ok tt else Raise ValueError)
  /\ frame_dirs (snd r) = frame_dirs f
  /\ lst_dirs (snd r) = lst_dirs f.
Proof.
  unfold known_extension. set (known := map lower IMAGE_EXTENSTIONS).
  cbv zeta.
  match goal with
  | |- context [for_each exts ?b f] => set (body := b)
  end.
  revert f. induction exts as [| ext exts IH]; intros f;
    cbn [for_each forallb]; [done |].
  unfold bind. destruct (body ext f) as [r f1] eqn:Hbody.
  unfold body, bind, of_result in Hbody.
  pose proof (index_spec (lower ext) known) as Hidx.
  destruct (str_in (lower ext) known).
  - destruct Hidx as (i & Hi & _). rewrite Hi in Hbody.
    assert (r = Ok tt /\ frame_dirs f1 = frame_dirs f
            /\ lst_dirs f1 = lst_dirs f) as (-> & Hdirs & Hitems).
    { destruct (0 <? i)%nat; unfold Check, modify in Hbody;
        by injection Hbody as <- <-. }
    cbn [andb]. destruct (IH f1) as (-> & -> & ->). by rewrite Hdirs, Hitems.
  - rewrite Hidx in Hbody. by injection Hbody as <- <-.
Qed.

Lemma refresh_ui_run (f : Image_Processor_Frame) :
  exists r f',
    refresh_ui f = (r, f')
    /\ r = (if forallb known_extension (frame_extensions f) then Ok tt
            else Raise ValueError)
    /\ frame_dirs f' = frame_dirs f
    /\ lst_dirs f' = lst_dirs f.
Proof.
  unfold refresh_ui. unfold bind at 1. unfold get at 1.
  unfold bind at 1.
  destruct (refresh_loop (frame_extensions f) f) as (Hloop & Hdirs & Hitems).
  cbv zeta in Hloop, Hdirs, Hitems.
  destruct (for_each _ _ f) as [[[] | e] f1]; simpl in Hloop, Hdirs, Hitems.
  - rewrite <- Hloop, <- Hdirs, <- Hitems.
    destruct f1 as [ds exts path boxes items start rem log c1 c2 value c3].
    unfold bind, get, when, Enable_start_batch, Enable_rem_dir,
      Enable_log_controls, SetValue_log_path, modify, ret, GetChecked.
    simpl.
    destruct ds, log; simpl;
      destruct (length (GetChecked_from 0 boxes) =? 0)%nat; simpl;
      by eexists _, _.
  - by eexists _, _.
Qed.

Lemma refresh_ui_keeps_dirs (f : Image_Processor_Frame) :
  frame_dirs (snd (refresh_ui f)) = frame_dirs f
  /\ lst_dirs (snd (refresh_ui f)) = lst_dirs f.
Proof. by destruct (refresh_ui_run f) as (r & f' & -> & _ & ? & ?). Qed.

(** X24.  [refresh_ui] looks every extension of the frame up, in lower case, in
    the list of the known ones: it returns when all of them are known and
    raises [ValueError] as soon as one is not. *)
Theorem refresh_ui_needs_known_extensions (f : Image_Processor_Frame) :
  fst (refresh_ui f)
  = if forallb known_extension (frame_extensions f) then Ok tt
    else Raise ValueError.
Proof. by destruct (refresh_ui_run f) as (r & f' & -> & -> & _). Qed.

(** X25.  After a click on the check list box, [on_exts_changed] stores the labels
    of the checked boxes in [extensions] and never raises; but its
    [refresh_ui] clears the first box, whose position 0 fails the test
    [idx > 0], and leaves the others alone.  The start button ends enabled
    exactly when there is a directory and a box other than the first is
    checked. *)
Theorem on_exts_changed_clears_first_box (f : Image_Processor_Frame) :
  boxes_match_labels f ->
  exists f',
    on_exts_changed f = (Ok tt, f')
    /\ frame_extensions f' = GetCheckedStrings f
    /\ clb_extensions f' = <[0%nat := false]> (clb_extensions f)
    /\ btn_start_batch f'
       = truthy (frame_dirs f) && existsb id (drop 1 (clb_extensions f)).
Proof.
  unfold boxes_match_labels. rewrite IMAGE_EXTENSTIONS_sorted.
  destruct f as [ds exts path boxes items start rem log c1 c2 value c3].
  simpl. intros Hboxes.
  destruct boxes as [| b0 [| b1 [| b2 [| b3 [| b4 rest]]]]]; try done.
  destruct b0, b1, b2, b3, ds as [| d ds], log; eexists;
    (split; [by vm_compute |]); by vm_compute.
Qed.

Lemma on_exts_changed_clears_first_box_witness :
  let f := {| frame_dirs := ["/art"%string]; frame_extensions := [];
              frame_log_filepath := "/report.xml";
              clb_extensions := [true; false; false; false];
              lst_dirs := ["/art"%string];
              btn_start_batch := true; btn_rem_dir := true; use_log := true;
              txt_log_filename := true; txt_log_path := true;
              txt_log_path_value := "/report.xml";
              btn_browse_log_path := true |} in
  exists f',
    on_exts_changed f = (Ok tt, f')
    /\ frame_extensions f' = ["bmp"%string]
    /\ clb_extensions f' = [false; false; false; false]
    /\ btn_start_batch f' = false.
Proof.
  intros f.
  destruct (on_exts_changed_clears_first_box f) as (f' & Hrun & Hexts & Hboxes & Hstart).
  { by vm_compute. }
  exists f'. split; [exact Hrun |].
  split; [rewrite Hexts; by vm_compute |].
  split; [exact Hboxes | exact Hstart].
Defined.

Lemma on_add_dir_dirs (path : string) (f : Image_Processor_Frame) :
  let f' := snd (on_add_dir_pressed (Some path) f) in
  frame_dirs f' = sort (list_of_set (frame_dirs f ++ [path]))
  /\ lst_dirs f' = frame_dirs f'.
Proof.
  unfold on_add_dir_pressed. simpl.
  unfold bind at 1.
  match goal with
  | |- context [bind (modify ?a) ?k f] =>
      destruct (bind (modify a) k f) as [r f1] eqn:Hadd
  end.
  revert Hadd. unfold bind, modify, get, SetItems. simpl.
  intros [= <- <-].
  match goal with
  | |- context [refresh_ui ?f1] =>
      destruct (refresh_ui_keeps_dirs f1) as [-> ->]
  end.
  done.
Qed.

Lemma sort_list_of_set (l : list string) :
  Sorted.StronglySorted str_le (sort (list_of_set l))
  /\ NoDup (sort (list_of_set l))
  /\ (forall d, d ∈ sort (list_of_set l) <-> d ∈ l).
Proof.
  unfold sort, list_of_set.
  split; [apply sorting.StronglySorted_merge_sort; apply _ |].
  split.
  - rewrite sorting.merge_sort_Permutation. apply NoDup_elements.
  - intros d. rewrite sorting.merge_sort_Permutation.
    by rewrite elem_of_elements, elem_of_list_to_set.
Qed.

(** X26.  [on_add_dir_pressed] with a chosen path leaves the directories of the
    frame in ascending order and without a repeat: they are the former ones
    and the chosen one, and the list box shows the same list.  This holds
    also when the [refresh_ui] at the end raises. *)
Theorem add_dir_sorts_without_repeats (path : string)
    (f : Image_Processor_Frame) :
  let f' := snd (on_add_dir_pressed (Some path) f) in
  Sorted.StronglySorted str_le (frame_dirs f')
  /\ NoDup (frame_dirs f')
  /\ (forall d, d ∈ frame_dirs f' <-> d ∈ frame_dirs f \/ d = path)
  /\ lst_dirs f' = frame_dirs f'.
Proof.
  destruct (on_add_dir_dirs path f) as [Hdirs Hitems].
  cbv zeta in *. rewrite Hitems, Hdirs.
  destruct (sort_list_of_set (frame_dirs f ++ [path]))
    as (Hsorted & Hnodup & Helem).
  repeat split; try done.
  - intros Hd. apply Helem, elem_of_app in Hd as [Hd | Hd]; [by left |].
    right. by apply list_elem_of_singleton in Hd.
  - intros [Hd | ->]; apply Helem, elem_of_app; [by left |].
    right. by apply list_elem_of_singleton.
Qed.

(** X27.  Choosing the same path a second time changes nothing in the list of
    directories. *)
Theorem add_dir_twice_is_add_dir_once (path : string)
    (f : Image_Processor_Frame) :
  let once := snd (on_add_dir_pressed (Some path) f) in
  let twice := snd (on_add_dir_pressed (Some path) once) in
  frame_dirs twice = frame_dirs once /\ lst_dirs twice = lst_dirs once.
Proof.
  cbv zeta.
  destruct (on_add_dir_dirs path f) as [Hdirs Hitems].
  destruct (on_add_dir_dirs path (snd (on_add_dir_pressed (Some path) f)))
    as [Hdirs' Hitems'].
  cbv zeta in *.
  assert (Hsame : frame_dirs (snd (on_add_dir_pressed (Some path)
                    (snd (on_add_dir_pressed (Some path) f))))
                  = frame_dirs (snd (on_add_dir_pressed (Some path) f)));
    [| by rewrite Hitems', Hitems, Hsame].
  rewrite Hdirs'.
  destruct (sort_list_of_set (frame_dirs f ++ [path]))
    as (Hsorted & Hnodup & Helem).
  rewrite <- Hdirs in Hsorted, Hnodup, Helem.
  destruct (sort_list_of_set
              (frame_dirs (snd (on_add_dir_pressed (Some path) f)) ++ [path]))
    as (Hsorted' & Hnodup' & Helem').
  apply (sorting.StronglySorted_unique str_le); [done | done |].
  apply NoDup_Permutation; [done | done |].
  intros d. rewrite Helem', elem_of_app, list_elem_of_singleton, Helem.
  rewrite elem_of_app, list_elem_of_singleton. tauto.
Qed.

(** ** The check boxes of the actions *)

Section CheckBoxes.

Context {C : Type} {Ceq : EqDecision C} {Ccount : Countable C}.
Variable Act : ImageAction C.
Variable check_box : C -> bool.

Lemma collect_actions_given (Act' : ImageAction C) (b : Image_Batch)
    (classes acc : list C) :
  actions_given b = true ->
  (forall c, @action_name C Act' c = @action_name C Act c) ->
  fold_left (@consider_action C Act' b) classes acc
  = fold_left (@consider_action C Act b) classes acc.
Proof.
  intros Hgiven Hnames. revert acc.
  induction classes as [| c classes IH]; intros acc; simpl; [done |].
  rewrite IH. f_equal. unfold consider_action.
  by rewrite Hgiven, Hnames.
Qed.

(** X28.  A click on the box of a class decides whether the class runs, and
    leaves the other classes as they were, as long as the batch has no list
    of actions.  With a list, a click changes nothing in what runs. *)
Theorem check_box_decides_selection (cls : C) (checked : bool)
    (b : Image_Batch) :
  check_box cls = true ->
  let clicked := update_can_execute check_box (Some cls) (Some checked) Act in
  (actions_given b = false ->
   forall c,
     c ∈ @get_subclass_actions_to_perform C Ceq Ccount clicked b
     <-> c ∈ @subclasses C Act
         /\ (if decide (c = cls) then checked = true
             else @can_execute C Act c = true))
  /\ (actions_given b = true ->
      @get_subclass_actions_to_perform C Ceq Ccount clicked b
      = @get_subclass_actions_to_perform C Ceq Ccount Act b).
Proof.
  intros Hbox clicked. subst clicked.
  unfold update_can_execute, process_event_can_execute. rewrite Hbox.
  split.
  - intros Hgiven c. rewrite elem_of_actions_to_perform.
    unfold selected. rewrite Hgiven. simpl.
    by destruct (decide (c = cls)).
  - intros Hgiven. unfold get_subclass_actions_to_perform, collect_actions.
    simpl. by rewrite (collect_actions_given _ b _ _ Hgiven).
Qed.

End CheckBoxes.

Lemma check_box_decides_selection_witness :
  let clicked :=
    update_can_execute (fun _ => true) (Some Action_Check_Power_Of_2)
      (Some true) Sample.actions in
  Action_Check_Power_Of_2
    ∈ @get_subclass_actions_to_perform _ _ _ clicked (Sample.batch_of [] None)
  /\ ~ Action_Check_Power_Of_2
        ∈ @get_subclass_actions_to_perform _ _ _ Sample.actions
            (Sample.batch_of [] None).
Proof.
  intros clicked.
  destruct (check_box_decides_selection Sample.actions (fun _ => true)
              Action_Check_Power_Of_2 true (Sample.batch_of [] None) eq_refl)
    as [Hclick _].
  split.
  - apply Hclick; [reflexivity |]. split; [| reflexivity].
    apply list_elem_of_In. simpl. tauto.
  - rewrite elem_of_actions_to_perform. by intros [_ Hsel].
Defined.
